(** * vite-plugin-ops: dependency classification and priority matching

    A shallow embedding of [src/index.ts]: the path normalizer
    ([normalizeId]), the pattern compiler ([makeNodeModulesPattern]), the
    matcher builder ([buildGroupMatchers]) and the resolver
    ([manualChunks]), followed by the properties of the specification.

    Conventions of the embedding.
    - A JavaScript string is a [string]: a sequence of code units below
      256.  Under the [i] flag (without [u]) two code units are equal when
      their upper-case forms are, which on that range pairs [a]-[z] with
      [A]-[Z] and the Latin-1 letters E0-FE (but F7) with C0-DE.
    - A [Set<string>] is the list of its elements in insertion order, the
      order in which [for ... of] and [Array.from] visit it.
    - A [Record<string, T>] is the list of its entries in the order
      [Object.entries] enumerates them; [objectEntries] gives that order
      from the order in which the keys were written.
    - A [RegExp] object handed in by the user is the predicate computed by
      its [test] method (no [g] or [y] flag, hence no [lastIndex] state).
    - The regular expressions the code itself builds are given as syntax
      trees and run by a backtracking matcher. *)

From Stdlib Require Import List String Ascii Bool ZArith Lia.
From Stdlib Require Import Sorted Permutation.
From Stdlib Require Import Floats.PrimFloat.
Import ListNotations.

Local Open Scope string_scope.
Local Open Scope Z_scope.

Set Implicit Arguments.

(** ** JavaScript string primitives used by the source *)

Module JsString.

(** [s.startsWith(p)] *)
Definition startsWith (s p : string) : bool := String.prefix p s.

(** [s.includes(sub)]: [sub] occurs at some index of [s]. *)
Fixpoint includes (s sub : string) : bool :=
  String.prefix sub s
  || match s with
     | EmptyString => false
     | String _ s' => includes s' sub
     end.

(** [s.replace(/c/g, r)] for a one-character pattern [c]. *)
Fixpoint replaceChar (c : ascii) (r : string) (s : string) : string :=
  match s with
  | EmptyString => EmptyString
  | String a s' =>
      if Ascii.eqb a c then r ++ replaceChar c r s'
      else String a (replaceChar c r s')
  end.

(** [s.replace(/%5C/g, '/')]: leftmost, non-overlapping occurrences. *)
Fixpoint replacePercent5C (s : string) : string :=
  match s with
  | EmptyString => EmptyString
  | String "%" (String "5" (String "C" rest)) =>
      String "/" (replacePercent5C rest)
  | String a s' => String a (replacePercent5C s')
  end.

(** [s.length] *)
Definition length (s : string) : Z := Z.of_nat (String.length s).

End JsString.

(** ** Regular expressions

    The fragment of the ECMAScript pattern language that occurs in
    [index.ts]: characters, bracket classes, sequence, alternation,
    [?], [+] and the end-of-input assertion [$]. *)

Module RegExp.

Inductive regex : Type :=
| Eps : regex
| Chr : ascii -> regex
| Class : bool -> list ascii -> regex      (* [neg] and the listed members *)
| Seq : regex -> regex -> regex
| Alt : regex -> regex -> regex
| Star : regex -> regex
| Eos : regex.                              (* [$] without the [m] flag *)

Definition Opt (r : regex) : regex := Alt r Eps.
Definition Plus (r : regex) : regex := Seq r (Star r).

(** The characters of [s] one after the other. *)
Fixpoint lit (s : string) : regex :=
  match s with
  | EmptyString => Eps
  | String c s' => Seq (Chr c) (lit s')
  end.

(** [Canonicalize] under [ignoreCase]: the upper-case code unit when there
    is one in range.  B5, DF and FF have no upper case below 256 and no
    other code unit below 256 shares theirs, so they stay as they are. *)
Definition canonicalize (c : ascii) : ascii :=
  let n := nat_of_ascii c in
  if (Nat.leb 97 n && Nat.leb n 122)%bool then ascii_of_nat (n - 32)
  else if (Nat.leb 224 n && Nat.leb n 254 && negb (Nat.eqb n 247))%bool
       then ascii_of_nat (n - 32)
  else c.

Definition chr_eq (ic : bool) (a b : ascii) : bool :=
  if ic then Ascii.eqb (canonicalize a) (canonicalize b) else Ascii.eqb a b.

Definition class_mem (ic neg : bool) (cs : list ascii) (a : ascii) : bool :=
  xorb neg (existsb (fun c => chr_eq ic c a) cs).

(** Backtracking matcher in continuation-passing style: [matchK ic r s k]
    holds when [r] matches a prefix of [s] and [k] accepts what is left.
    An iteration of [Star] that consumes nothing is rejected, as the
    RepeatMatcher of the language does. *)
Fixpoint matchK (ic : bool) (r : regex) (s : string)
         (k : string -> bool) {struct r} : bool :=
  match r with
  | Eps => k s
  | Chr c =>
      match s with
      | String a s' => chr_eq ic c a && k s'
      | EmptyString => false
      end
  | Class neg cs =>
      match s with
      | String a s' => class_mem ic neg cs a && k s'
      | EmptyString => false
      end
  | Seq r1 r2 => matchK ic r1 s (fun s' => matchK ic r2 s' k)
  | Alt r1 r2 => matchK ic r1 s k || matchK ic r2 s k
  | Star r' =>
      (fix loop (fuel : nat) (s : string) {struct fuel} : bool :=
         match fuel with
         | O => k s
         | S fuel' =>
             matchK ic r' s
               (fun s' =>
                  Nat.ltb (String.length s') (String.length s)
                  && loop fuel' s')
             || k s
         end) (String.length s) s
  | Eos =>
      match s with
      | EmptyString => k s
      | String _ _ => false
      end
  end.

(** A compiled expression: the syntax tree and the [i] flag. *)
Record t : Type := mk { source : regex; ignoreCase : bool }.

(** [re.test(s)]: a match starting at some index of [s]. *)
Fixpoint search (ic : bool) (r : regex) (s : string) : bool :=
  matchK ic r s (fun _ => true)
  || match s with
     | EmptyString => false
     | String _ s' => search ic r s'
     end.

Definition test (re : t) (s : string) : bool :=
  search (ignoreCase re) (source re) s.

End RegExp.

Import RegExp.

(** ** Configuration and matchers *)

Inductive SplitStrategy : Type := aggressive | balanced | conservative.

(** [string | RegExp] *)
Inductive PackagePattern : Type :=
| PkgString : string -> PackagePattern
| PkgRegExp : (string -> bool) -> PackagePattern.

Record GroupMatcher : Type := {
  name : string;
  test : string -> bool;
  priority : Z
}.

(** ** Path normalizer *)

Definition normalizeId (id : string) : string :=
  JsString.replacePercent5C (JsString.replaceChar "\" "/" id).

(** ** Pattern compiler *)

(** The syntax characters of [/[.*+?^${}()|[\]\\]/]. *)
Definition isSyntaxChar (c : ascii) : bool :=
  existsb (Ascii.eqb c)
    ["."; "*"; "+"; "?"; "^"; "$"; "{"; "}"; "("; ")"; "|"; "["; "]"; "\"]%char.

(** [pkg.replace(/[.*+?^${}()|[\]\\]/g, '\\$&')] *)
Fixpoint escapeRegExp (pkg : string) : string :=
  match pkg with
  | EmptyString => EmptyString
  | String c s' =>
      if isSyntaxChar c then String "\" (String c (escapeRegExp s'))
      else String c (escapeRegExp s')
  end.

(** The pattern denoted by a text in which every syntax character is
    preceded by a backslash: [\c] and a plain [c] both stand for the
    character [c].  (A lone trailing backslash is not produced by
    [escapeRegExp]; see [parseEscaped_escapeRegExp].) *)
Fixpoint parseEscaped (s : string) : regex :=
  match s with
  | EmptyString => Eps
  | String "\" (String c s') => Seq (Chr c) (parseEscaped s')
  | String c s' => Seq (Chr c) (parseEscaped s')
  end.

(** [new RegExp(`/node_modules/(?:[.]pnpm/)?(?:${base})(?:/|@|$)`, 'i')] *)
Definition nodeModulesRegExp (base : regex) : RegExp.t :=
  RegExp.mk
    (Seq (lit "/node_modules/")
       (Seq (Opt (Seq (Class false ["."%char]) (lit "pnpm/")))
          (Seq base
             (Alt (Chr "/") (Alt (Chr "@") Eos)))))
    true.

(** [`(?:@[^/]+/)?${escaped}`] *)
Definition unscopedBase (escaped : regex) : regex :=
  Seq (Opt (Seq (Chr "@") (Seq (Plus (Class true ["/"%char])) (Chr "/"))))
      escaped.

Definition makeNodeModulesPattern (pkg : PackagePattern) : string -> bool :=
  match pkg with
  | PkgRegExp re => fun id => re id
  | PkgString pkg =>
      let scoped := JsString.startsWith pkg "@" in
      let escaped := parseEscaped (escapeRegExp pkg) in
      let base := if scoped then escaped else unscopedBase escaped in
      let re := nodeModulesRegExp base in
      fun id => RegExp.test re id
  end.

(** ** Matcher builder *)

(** [Array.prototype.sort(cmp)]: the stable sort by a comparator with a
    numeric result (negative: left first, positive: right first). *)
Section Sort.
Variable A : Type.
Variable cmp : A -> A -> Z.

Fixpoint insert (x : A) (l : list A) : list A :=
  match l with
  | [] => [x]
  | y :: l' => if cmp x y <=? 0 then x :: y :: l' else y :: insert x l'
  end.

Definition sort (l : list A) : list A := fold_right insert [] l.
End Sort.

(** [Set.prototype.has] *)
Definition has (s : list string) (x : string) : bool :=
  existsb (String.eqb x) s.

(** [Array.prototype.includes] on an array of strings *)
Definition arrayIncludes (a : list string) (x : string) : bool :=
  existsb (String.eqb x) a.

Definition Groups : Type := list (string * list PackagePattern).

(** [OPSOptions]; an absent field is [None].  [minSize] is a JavaScript
    number, a binary64 float. *)
Record OPSOptions : Type := {
  override : option bool;
  strategy : option SplitStrategy;
  minSize : option PrimFloat.float;
  groups : option Groups
}.

Record ResolvedOptions : Type := {
  r_override : bool;
  r_strategy : SplitStrategy;
  r_minSize : PrimFloat.float;
  r_groups : option Groups
}.

Definition COMMON_LARGE_LIBS : list (string * list string) :=
  [ ("react", ["react"; "react-dom"]);
    ("vue", ["vue"; "@vue/"]);
    ("angular", ["@angular/"]);
    ("svelte", ["svelte"]);
    ("redux", ["redux"; "react-redux"; "@reduxjs/toolkit"]);
    ("mobx", ["mobx"; "mobx-react"]);
    ("zustand", ["zustand"]);
    ("pinia", ["pinia"]);
    ("react-router", ["react-router"; "react-router-dom"]);
    ("vue-router", ["vue-router"]);
    ("antd", ["antd"; "@ant-design/"]);
    ("element-plus", ["element-plus"]);
    ("element-ui", ["element-ui"]);
    ("naive-ui", ["naive-ui"]);
    ("arco-design", ["@arco-design/"]);
    ("material-ui", ["@mui/"; "@material-ui/"]);
    ("chakra", ["@chakra-ui/"]);
    ("lodash", ["lodash"; "lodash-es"]);
    ("moment", ["moment"]);
    ("dayjs", ["dayjs"]);
    ("axios", ["axios"]);
    ("echarts", ["echarts"]);
    ("d3", ["d3"]);
    ("chart.js", ["chart.js"]);
    ("quill", ["quill"]);
    ("three", ["three"]);
    ("babylon", ["@babylonjs/"]) ].

Definition MEDIUM_LIB_GROUPS : list (string * list string) :=
  [ ("utils", ["@vueuse/"; "ahooks"; "react-use"]);
    ("icons", ["@iconify/"; "@ant-design/icons"; "@heroicons/"; "lucide-react"]);
    ("form", ["react-hook-form"; "formik"; "async-validator"]);
    ("i18n", ["i18next"; "react-i18next"; "vue-i18n"]) ].

Definition veryLargeLibs : list string :=
  ["react"; "vue"; "angular"; "antd"; "element-plus"; "echarts"; "three"].

(** [(id) => testers.some((t) => t(id))] *)
Definition someTester (testers : list (string -> bool)) : string -> bool :=
  fun id => existsb (fun t => t id) testers.

(** The comparator that puts the longest literal first; a [RegExp] counts
    as length 0. *)
Definition patternLength (p : PackagePattern) : Z :=
  match p with
  | PkgString s => JsString.length s
  | PkgRegExp _ => 0
  end.

Definition byLengthDesc (a b : PackagePattern) : Z :=
  let la := patternLength a in
  let lb := patternLength b in
  lb - la.

(** A group of literal patterns as one matcher. *)
Definition presetMatcher (prio : Z) (groupName : string)
           (patterns : list string) : GroupMatcher :=
  let testers := map (fun p => makeNodeModulesPattern (PkgString p)) patterns in
  {| name := groupName; test := someTester testers; priority := prio |}.

(** Custom groups (priority 100). *)
Definition customMatchers (gs : option Groups) : list GroupMatcher :=
  match gs with
  | None => []
  | Some entries =>
      flat_map
        (fun '(name, patterns) =>
           if negb (Nat.eqb (List.length patterns) 0) then
             let sorted := sort byLengthDesc patterns in
             let testers := map makeNodeModulesPattern sorted in
             [ {| name := name; test := someTester testers; priority := 100 |} ]
           else [])
        entries
  end.

(** Plugin-detected groups (priority 90). *)
Definition detectedGroups (pluginHints : list string)
  : list (string * list string) :=
  (if has pluginHints "vue" then [("vue", ["vue"; "@vue/"])] else [])
  ++ (if has pluginHints "vueuse" then [("vueuse", ["@vueuse/"])] else []).

Definition detectedMatchers (pluginHints : list string) : list GroupMatcher :=
  map (fun '(name, patterns) => presetMatcher 90 name patterns)
      (detectedGroups pluginHints).

(** [patterns.some(p => Array.from(projectDeps).some(dep =>
    dep.includes(strip(p))))] *)
Definition hasAny (strip : string -> string) (projectDeps : list string)
           (patterns : list string) : bool :=
  existsb
    (fun p =>
       let pkgName := strip p in
       existsb (fun dep => JsString.includes dep pkgName) projectDeps)
    patterns.

Definition stripSlash (p : string) : string :=
  JsString.replaceChar "/" "" p.

Definition stripSlashStar (p : string) : string :=
  JsString.replaceChar "*" "" (JsString.replaceChar "/" "" p).

(** The groups of a preset table that pass the containment test. *)
Definition tableMatchers (prio : Z) (strip : string -> string)
           (projectDeps : list string) (table : list (string * list string))
  : list GroupMatcher :=
  flat_map
    (fun '(groupName, patterns) =>
       if hasAny strip projectDeps patterns
       then [presetMatcher prio groupName patterns]
       else [])
    table.

(** Strategy-based splitting. *)
Definition strategyMatchers (strategy : SplitStrategy)
           (projectDeps : list string) : list GroupMatcher :=
  match strategy with
  | aggressive =>
      flat_map
        (fun dep =>
           if negb (JsString.startsWith dep "@types/") then
             [ {| name := dep;
                  test := makeNodeModulesPattern (PkgString dep);
                  priority := 50 |} ]
           else [])
        projectDeps
  | balanced =>
      tableMatchers 80 stripSlash projectDeps COMMON_LARGE_LIBS
      ++ tableMatchers 70 stripSlashStar projectDeps MEDIUM_LIB_GROUPS
  | conservative =>
      flat_map
        (fun '(groupName, patterns) =>
           if arrayIncludes veryLargeLibs groupName then
             if hasAny stripSlash projectDeps patterns
             then [presetMatcher 80 groupName patterns]
             else []
           else [])
        COMMON_LARGE_LIBS
  end.

(** The matchers in the order in which they are pushed. *)
Definition pushedMatchers (options : OPSOptions)
           (projectDeps pluginHints : list string) : list GroupMatcher :=
  let strategy := match strategy options with
                  | Some s => s
                  | None => balanced
                  end in
  customMatchers (groups options)
  ++ detectedMatchers pluginHints
  ++ strategyMatchers strategy projectDeps.

Definition byPriorityDesc (a b : GroupMatcher) : Z :=
  priority b - priority a.

Definition buildGroupMatchers (options : OPSOptions)
           (projectDeps pluginHints : list string) : list GroupMatcher :=
  sort byPriorityDesc (pushedMatchers options projectDeps pluginHints).

(** ** The plugin: option resolution and the resolver *)

(** [opts.x ?? default] for every field. *)
Definition resolveOptions (opts : OPSOptions) : ResolvedOptions :=
  {| r_override := match override opts with Some b => b | None => false end;
     r_strategy := match strategy opts with Some s => s | None => balanced end;
     r_minSize := match minSize opts with Some n => n | None => 50%float end;
     r_groups := groups opts |}.

(** A [ResolvedOptions] passed where [Pick<OPSOptions, ...>] is expected. *)
Definition asOptions (o : ResolvedOptions) : OPSOptions :=
  {| override := Some (r_override o);
     strategy := Some (r_strategy o);
     minSize := Some (r_minSize o);
     groups := r_groups o |}.

(** [/\/node_modules\//] *)
Definition nodeModulesSegment : RegExp.t :=
  RegExp.mk (lit "/node_modules/") false.

(** [manualChunks], with the captured variable [groupsRef] as a parameter;
    [None] is [undefined]. *)
Definition manualChunks (groupsRef : list GroupMatcher) (id : string)
  : option string :=
  let nid := normalizeId id in
  if negb (RegExp.test nodeModulesSegment nid) then None
  else
    match find (fun g => test g nid) groupsRef with
    | Some g => Some (name g)
    | None => Some "vendor"
    end.

(** [configResolved]: the value stored in [groupsRef]. *)
Definition configResolved (opts : OPSOptions)
           (projectDeps hints : list string) : list GroupMatcher :=
  buildGroupMatchers (asOptions (resolveOptions opts)) projectDeps hints.

(** The resolver of a plugin instance once [configResolved] has run. *)
Definition resolve (opts : OPSOptions) (projectDeps hints : list string)
           (id : string) : option string :=
  manualChunks (configResolved opts projectDeps hints) id.

Definition noOptions : OPSOptions :=
  {| override := None; strategy := None; minSize := None; groups := None |}.

(** ** Vocabulary of the specification *)

(** [sub] occurs in [s]: some text before it, some text after it. *)
Definition occursIn (sub s : string) : Prop :=
  exists pre post, s = pre ++ sub ++ post.

(** The normalized path has a [node_modules] segment with a separator on
    each side. *)
Definition hasNodeModulesSegment (nid : string) : Prop :=
  occursIn "/node_modules/" nid.

(** Non-increasing priority along the list. *)
Definition priorityDescending (l : list GroupMatcher) : Prop :=
  StronglySorted (fun a b => priority b <= priority a) l.

(** The matchers of one priority tier, in list order. *)
Definition tier (p : Z) (l : list GroupMatcher) : list GroupMatcher :=
  filter (fun m => priority m =? p) l.

(** A configuration in which only the strategy is chosen. *)
Definition strategyOnly (s : SplitStrategy) : OPSOptions :=
  {| override := None; strategy := Some s; minSize := None; groups := None |}.

(** A configuration with one custom group of literal patterns. *)
Definition oneGroup (ovr : option bool) (st : option SplitStrategy)
           (ms : option PrimFloat.float) (groupName : string)
           (patterns : list string) : OPSOptions :=
  {| override := ovr; strategy := st; minSize := ms;
     groups := Some [(groupName, map PkgString patterns)] |}.

(** ** The other hooks of the plugin *)

(** [String.prototype.toLowerCase] on code units below 256: [A]-[Z] and
    the Latin-1 capitals C0-DE (but D7) move up by 32. *)
Definition lowerChar (c : ascii) : ascii :=
  let n := nat_of_ascii c in
  if (Nat.leb 65 n && Nat.leb n 90)%bool then ascii_of_nat (n + 32)
  else if (Nat.leb 192 n && Nat.leb n 222 && negb (Nat.eqb n 215))%bool
       then ascii_of_nat (n + 32)
  else c.

Fixpoint toLowerCase (s : string) : string :=
  match s with
  | EmptyString => EmptyString
  | String c s' => String (lowerChar c) (toLowerCase s')
  end.

(** [s.split(c)] for a one-character separator: never an empty array. *)
Fixpoint split (c : ascii) (s : string) : list string :=
  match s with
  | EmptyString => [EmptyString]
  | String a s' =>
      if Ascii.eqb a c then EmptyString :: split c s'
      else match split c s' with
           | piece :: pieces => String a piece :: pieces
           | [] => [String a EmptyString]
           end
  end.

(** [Array.prototype.pop]: the last element, [undefined] on an empty array. *)
Fixpoint pop (A : Type) (l : list A) : option A :=
  match l with
  | [] => None
  | [x] => Some x
  | _ :: l' => pop l'
  end.

(** [assetFileNamesFn], applied to [assetInfo.name]. *)
Definition assetFileNamesFn (assetName : option string) : string :=
  let name := match assetName with Some n => n | None => "" end in
  let ext := option_map toLowerCase (pop (split "." name)) in
  let extOrEmpty := match ext with Some e => e | None => "" end in
  if match ext with Some e => String.eqb e "css" | None => false end
  then "css/[name]-[hash][extname]"
  else if arrayIncludes ["png"; "jpg"; "jpeg"; "gif"; "svg"; "webp"; "avif"]
                        extOrEmpty
  then "img/[name]-[hash][extname]"
  else if arrayIncludes ["woff"; "woff2"; "eot"; "ttf"; "otf"] extOrEmpty
  then "fonts/[name]-[hash][extname]"
  else "assets/[name]-[hash][extname]".

(** The [output] object of [build.rollupOptions]: its own properties in
    insertion order.  A value is one of the four the plugin injects or a
    value of the user, of an arbitrary type [V]. *)
Section Output.
Variable V : Type.

Inductive OutputValue : Type :=
| FileNamePattern : string -> OutputValue
| AssetFileNamesFn : OutputValue          (* the closure [assetFileNamesFn] *)
| ManualChunksFn : OutputValue            (* the closure [manualChunks] *)
| UserValue : V -> OutputValue.

Definition OutputObject : Type := list (string * OutputValue).

(** [userConfig.build?.rollupOptions?.output] *)
Inductive ExistingOutput : Type :=
| NoOutput : ExistingOutput
| OutputArray : list OutputObject -> ExistingOutput
| OutputRecord : OutputObject -> ExistingOutput.

(** [key in obj] *)
Definition hasKey (key : string) (obj : OutputObject) : bool :=
  existsb (fun e => String.eqb (fst e) key) obj.

(** [obj[key]] *)
Fixpoint getKey (key : string) (obj : OutputObject) : option OutputValue :=
  match obj with
  | [] => None
  | (k, v) :: obj' => if String.eqb k key then Some v else getKey key obj'
  end.

(** [obj[key] = v]: in place when the key is there, appended otherwise. *)
Fixpoint setKey (key : string) (v : OutputValue) (obj : OutputObject)
  : OutputObject :=
  match obj with
  | [] => [(key, v)]
  | (k, w) :: obj' =>
      if String.eqb k key then (k, v) :: obj'
      else (k, w) :: setKey key v obj'
  end.

Definition injected : OutputObject :=
  [ ("entryFileNames", FileNamePattern "js/[name]-[hash].js");
    ("chunkFileNames", FileNamePattern "js/[name]-[hash].js");
    ("assetFileNames", AssetFileNamesFn);
    ("manualChunks", ManualChunksFn) ].

(** [if (!(key in merged)) merged[key] = v] *)
Definition fillIn (key : string) (v : OutputValue) (merged : OutputObject)
  : OutputObject :=
  if negb (hasKey key merged) then setKey key v merged else merged.

(** The [config] hook: the [output] it returns for the [override] option
    and the output of the user configuration. *)
Definition config (override : bool) (existingOutput : ExistingOutput)
  : OutputObject :=
  let outputIsArray := match existingOutput with
                       | OutputArray _ => true
                       | _ => false
                       end in
  let present := match existingOutput with
                 | NoOutput => false
                 | _ => true
                 end in
  let shouldMerge := negb override && present && negb outputIsArray in
  match shouldMerge, existingOutput with
  | true, OutputRecord base =>
      let merged := base in
      let merged := fillIn "entryFileNames"
                      (FileNamePattern "js/[name]-[hash].js") merged in
      let merged := fillIn "chunkFileNames"
                      (FileNamePattern "js/[name]-[hash].js") merged in
      let merged := fillIn "assetFileNames" AssetFileNamesFn merged in
      let merged := fillIn "manualChunks" ManualChunksFn merged in
      merged
  | _, _ => injected
  end.
End Output.

(** The framework hints of [configResolved], from the names of the
    resolved plugins. *)
Definition detectHints (pluginNames : list string) : list string :=
  ((if has pluginNames "vite:vue" || has pluginNames "vite:vue-jsx"
    then ["vue"] else [])
   ++ (if has pluginNames "unplugin-vue-components"
       then ["vueuse"] else []))%list.

(** [groupsRef] after [configResolved], from the dependency set read from
    the manifest and the names of the resolved plugins. *)
Definition configResolvedHook (opts : OPSOptions)
           (projectDeps pluginNames : list string) : list GroupMatcher :=
  configResolved opts projectDeps (detectHints pluginNames).

(** ** Meaning of the expressions *)

(** [matches ic r s s']: [r] matches the front of [s] and leaves [s']. *)
Inductive matches (ic : bool) : regex -> string -> string -> Prop :=
| M_Eps : forall s, matches ic Eps s s
| M_Chr : forall c a s,
    chr_eq ic c a = true -> matches ic (Chr c) (String a s) s
| M_Class : forall neg cs a s,
    class_mem ic neg cs a = true -> matches ic (Class neg cs) (String a s) s
| M_Seq : forall r1 r2 s s1 s2,
    matches ic r1 s s1 -> matches ic r2 s1 s2 -> matches ic (Seq r1 r2) s s2
| M_AltL : forall r1 r2 s s',
    matches ic r1 s s' -> matches ic (Alt r1 r2) s s'
| M_AltR : forall r1 r2 s s',
    matches ic r2 s s' -> matches ic (Alt r1 r2) s s'
| M_StarNil : forall r s, matches ic (Star r) s s
| M_StarCons : forall r s s1 s2,
    matches ic r s s1 -> matches ic (Star r) s1 s2 ->
    matches ic (Star r) s s2
| M_Eos : matches ic Eos EmptyString EmptyString.

(** [text] is [pattern] up to the case of letters. *)
Fixpoint sameText (pattern text : string) : bool :=
  match pattern, text with
  | EmptyString, EmptyString => true
  | String c p', String a t' => chr_eq true c a && sameText p' t'
  | _, _ => false
  end.

(** No [/] in the text. *)
Fixpoint noSlash (s : string) : bool :=
  match s with
  | EmptyString => true
  | String a s' => negb (Ascii.eqb a "/") && noSlash s'
  end.

(** No [.] in the text. *)
Fixpoint noDot (s : string) : bool :=
  match s with
  | EmptyString => true
  | String a s' => negb (Ascii.eqb a ".") && noDot s'
  end.

(** What may follow the package in a path: a separator, the [@] of a
    version, or nothing. *)
Definition atBoundary (post : string) : Prop :=
  post = "" \/ exists rest, post = String "/" rest \/ post = String "@" rest.

(** The optional scope directory in front of an unscoped literal. *)
Definition scopeDirectory (pkg scope : string) : Prop :=
  scope = ""
  \/ (JsString.startsWith pkg "@" = false
      /\ exists c sc, scope = String "@" (String c sc ++ "/")
                      /\ noSlash (String c sc) = true).

(** [id] holds [pkg] as the package directory of a [node_modules] folder
    (directly, or in the [.pnpm] store), up to the case of letters. *)
Definition literalOccurrence (pkg id : string) : Prop :=
  exists pre nm store scope body post,
    id = pre ++ nm ++ store ++ scope ++ body ++ post
    /\ sameText "/node_modules/" nm = true
    /\ (store = "" \/ sameText ".pnpm/" store = true)
    /\ scopeDirectory pkg scope
    /\ sameText pkg body = true
    /\ atBoundary post.

(** The first matcher of the list that accepts the path. *)
Definition firstAccepting (nid : string) (groupsRef : list GroupMatcher)
           (g : GroupMatcher) : Prop :=
  exists before after,
    groupsRef = (before ++ g :: after)%list
    /\ Forall (fun m => test m nid = false) before
    /\ test g nid = true.

(** [pattern], up to the case of letters, is at the front of [text]. *)
Fixpoint startsWithText (pattern text : string) : bool :=
  match pattern, text with
  | EmptyString, _ => true
  | String c p', String a t' => chr_eq true c a && startsWithText p' t'
  | String _ _, EmptyString => false
  end.

(** The number of places of [text] where [pattern] stands, up to case. *)
Fixpoint countText (pattern text : string) : nat :=
  ((if startsWithText pattern text then 1 else 0)
   + match text with
     | EmptyString => 0
     | String _ t' => countText pattern t'
     end)%nat.

(** ** The order of [Object.entries]

    The own string keys of an ordinary object are enumerated with the
    array indices first, in ascending numeric order, and then the other
    keys in the order in which they were created (for an object literal,
    the order in which they are written). *)

Definition digitValue (c : ascii) : option N :=
  let n := N_of_ascii c in
  if ((48 <=? n) && (n <=? 57))%N then Some (n - 48)%N else None.

Fixpoint digitsValue (acc : N) (s : string) : option N :=
  match s with
  | EmptyString => Some acc
  | String c s' =>
      match digitValue c with
      | Some d => digitsValue (10 * acc + d)%N s'
      | None => None
      end
  end.

(** An array index: the canonical decimal text of an integer between 0 and
    2^32 - 2 (no sign, no leading zero). *)
Definition arrayIndex (key : string) : option N :=
  match key with
  | EmptyString => None
  | String "0" EmptyString => Some 0%N
  | String "0" (String _ _) => None
  | String _ _ =>
      match digitsValue 0 key with
      | Some n => if (n <=? 4294967294)%N then Some n else None
      | None => None
      end
  end.

Section ObjectEntries.
Variable A : Type.

Definition isArrayIndex (e : string * A) : bool :=
  match arrayIndex (fst e) with Some _ => true | None => false end.

Definition indexValue (e : string * A) : Z :=
  match arrayIndex (fst e) with Some n => Z.of_N n | None => 0 end.

Definition ascendingIndex (a b : string * A) : Z :=
  indexValue a - indexValue b.

(** [Object.entries(obj)], from the own properties of [obj] in creation
    order. *)
Definition objectEntries (own : list (string * A)) : list (string * A) :=
  (sort ascendingIndex (filter isArrayIndex own)
   ++ filter (fun e => negb (isArrayIndex e)) own)%list.
End ObjectEntries.

(** The options of a plugin whose [groups] object, when given, was written
    with its groups in the order [declared]. *)
Definition declaredOptions (ovr : option bool) (st : option SplitStrategy)
           (ms : option PrimFloat.float) (declared : option Groups)
  : OPSOptions :=
  {| override := ovr; strategy := st; minSize := ms;
     groups := option_map (@objectEntries (list PackagePattern)) declared |}.

(** ** String and pattern lemmas *)

Lemma prefix_iff (p s : string) :
  String.prefix p s = true <-> exists post, s = p ++ post.
Proof.
  revert s; induction p as [|c p IH]; intros s; simpl.
  - destruct s; split; eauto.
  - destruct s as [|a s]; simpl.
    + split; [discriminate | intros [post H]; discriminate].
    + destruct (ascii_dec c a) as [->|Hne].
      * rewrite IH. split; intros [post H]; exists post; congruence.
      * split; [discriminate | intros [post H]; congruence].
Qed.

Lemma occursIn_here (sub s : string) :
  String.prefix sub s = true -> occursIn sub s.
Proof.
  intros H; apply prefix_iff in H as [post ->]. now exists "", post.
Qed.

Lemma occursIn_cons (sub : string) (a : ascii) (s : string) :
  occursIn sub s -> occursIn sub (String a s).
Proof.
  intros (pre & post & ->). now exists (String a pre), post.
Qed.

Lemma occursIn_inv (sub : string) (a : ascii) (s : string) :
  occursIn sub (String a s) ->
  String.prefix sub (String a s) = true \/ occursIn sub s.
Proof.
  intros (pre & post & H). destruct pre as [|b pre]; simpl in H.
  - left. apply prefix_iff. now exists post.
  - right. injection H as _ ->. now exists pre, post.
Qed.

Lemma includes_iff (s sub : string) :
  JsString.includes s sub = true <-> occursIn sub s.
Proof.
  induction s as [|a s IH]; cbn [JsString.includes].
  - rewrite orb_false_r. split; [apply occursIn_here|].
    intros (pre & post & H). apply prefix_iff.
    destruct pre; simpl in H; [now exists post | discriminate].
  - rewrite orb_true_iff, IH. split.
    + intros [H|H]; [now apply occursIn_here | now apply occursIn_cons].
    + apply occursIn_inv.
Qed.

(** A sequence of characters, matched with case, is a prefix test. *)
Lemma matchK_lit (p s : string) (k : string -> bool) :
  matchK false (lit p) s k = true <-> exists post, s = p ++ post /\ k post = true.
Proof.
  revert s; induction p as [|c p IH]; intros s; cbn [lit matchK].
  - split; [intros H; exists s; auto | now intros (post & -> & H)].
  - destruct s as [|a s].
    + split; [discriminate | intros (post & H & _); discriminate].
    + unfold chr_eq. rewrite andb_true_iff, IH, Ascii.eqb_eq. split.
      * intros (-> & post & -> & H). exists post. now split.
      * intros (post & H & Hk). simpl in H. injection H as -> ->. eauto.
Qed.

Lemma search_lit (p s : string) :
  search false (lit p) s = true <-> occursIn p s.
Proof.
  assert (Hm : forall s, matchK false (lit p) s (fun _ => true) = true
                         <-> String.prefix p s = true).
  { intros s0. rewrite matchK_lit, prefix_iff.
    split; [intros (post & -> & _); eauto | intros (post & ->); eauto]. }
  induction s as [|a s IH]; cbn [search].
  - rewrite orb_false_r, Hm. split; [apply occursIn_here|].
    intros (pre & post & H). apply prefix_iff.
    destruct pre; simpl in H; [now exists post | discriminate].
  - rewrite orb_true_iff, Hm, IH. split.
    + intros [H|H]; [now apply occursIn_here | now apply occursIn_cons].
    + apply occursIn_inv.
Qed.

Lemma nodeModulesSegment_iff (nid : string) :
  RegExp.test nodeModulesSegment nid = true <-> hasNodeModulesSegment nid.
Proof. apply (search_lit "/node_modules/"). Qed.

Lemma parseEscaped_plain (c : ascii) (s : string) :
  isSyntaxChar c = false ->
  parseEscaped (String c s) = Seq (Chr c) (parseEscaped s).
Proof.
  destruct c as [[] [] [] [] [] [] [] []]; intros H;
    try reflexivity; discriminate H.
Qed.

(** Escaping then reading back gives the characters of the literal: the
    interpolated text never changes the shape of the expression. *)
Lemma parseEscaped_escapeRegExp (pkg : string) :
  parseEscaped (escapeRegExp pkg) = lit pkg.
Proof.
  induction pkg as [|c s IH]; [reflexivity|].
  cbn [escapeRegExp lit]. destruct (isSyntaxChar c) eqn:E.
  - cbn [parseEscaped]. now rewrite IH.
  - rewrite parseEscaped_plain by exact E. now rewrite IH.
Qed.

(** The predicate of a literal, with the escaping resolved. *)
Lemma makeNodeModulesPattern_literal (pkg id : string) :
  makeNodeModulesPattern (PkgString pkg) id
  = RegExp.test
      (nodeModulesRegExp
         (if JsString.startsWith pkg "@" then lit pkg
          else unscopedBase (lit pkg)))
      id.
Proof.
  unfold makeNodeModulesPattern. now rewrite parseEscaped_escapeRegExp.
Qed.

(** The pattern compiler on paths of the usual layouts. *)
Example react_plain :
  makeNodeModulesPattern (PkgString "react")
    "/proj/node_modules/react/index.js" = true.
Proof. vm_compute. reflexivity. Qed.

Example react_in_store :
  makeNodeModulesPattern (PkgString "react")
    "/proj/node_modules/.pnpm/react@18.2.0/node_modules/react/index.js" = true.
Proof. vm_compute. reflexivity. Qed.

Example react_not_react_dom :
  makeNodeModulesPattern (PkgString "react")
    "/proj/node_modules/react-dom/index.js" = false.
Proof. vm_compute. reflexivity. Qed.

Example react_under_a_scope :
  makeNodeModulesPattern (PkgString "react")
    "/proj/node_modules/@types/react/index.d.ts" = true.
Proof. vm_compute. reflexivity. Qed.

Example dot_is_literal :
  makeNodeModulesPattern (PkgString "chart.js")
    "/proj/node_modules/chart.js/dist/chart.js" = true
  /\ makeNodeModulesPattern (PkgString "chart.js")
       "/proj/node_modules/chartxjs/dist/chart.js" = false.
Proof. split; vm_compute; reflexivity. Qed.

Example case_is_ignored :
  makeNodeModulesPattern (PkgString "vue")
    "/proj/NODE_MODULES/Vue/index.js" = true.
Proof. vm_compute. reflexivity. Qed.

Example scoped_name_without_slash :
  makeNodeModulesPattern (PkgString "@reduxjs/toolkit")
    "/proj/node_modules/@reduxjs/toolkit/dist/index.js" = true.
Proof. vm_compute. reflexivity. Qed.

Example scope_is_one_segment :
  makeNodeModulesPattern (PkgString "react")
    "/proj/node_modules/@a/b/react/index.js" = false.
Proof. vm_compute. reflexivity. Qed.

Example longest_literal_first :
  sort byLengthDesc
    [PkgString "react"; PkgRegExp (fun _ => true); PkgString "react-dom";
     PkgString "redux"]
  = [PkgString "react-dom"; PkgString "react"; PkgString "redux";
     PkgRegExp (fun _ => true)].
Proof. reflexivity. Qed.

Example normalizeId_windows :
  normalizeId "C:\proj%5Cnode_modules\vue%5cx" = "C:/proj/node_modules/vue%5cx".
Proof. vm_compute. reflexivity. Qed.

(** ** The stable sort *)

Section SortFacts.
Variable A : Type.

Lemma insert_perm (cmp : A -> A -> Z) (x : A) (l : list A) :
  Permutation (insert cmp x l) (x :: l).
Proof.
  induction l as [|y l IH]; simpl; [reflexivity|].
  destruct (cmp x y <=? 0); [reflexivity|].
  rewrite IH. apply perm_swap.
Qed.

Lemma sort_perm (cmp : A -> A -> Z) (l : list A) :
  Permutation (sort cmp l) l.
Proof.
  induction l as [|x l IH]; simpl; [reflexivity|].
  rewrite insert_perm. now constructor.
Qed.

(** A list that is already in order is left as it is. *)
Lemma sort_sorted_id (cmp : A -> A -> Z) (l : list A) :
  Sorted (fun a b => cmp a b <= 0) l -> sort cmp l = l.
Proof.
  induction 1 as [|x l Hs IH Hhd]; simpl; [reflexivity|].
  rewrite IH. destruct Hhd as [|y l Hxy]; simpl; [reflexivity|].
  apply Z.leb_le in Hxy. now rewrite Hxy.
Qed.

Variable key : A -> Z.

Abbreviation byKeyDesc := (fun a b : A => key b - key a).
Abbreviation keyDescending := (StronglySorted (fun a b : A => key b <= key a)).

Lemma insert_descending (x : A) (l : list A) :
  keyDescending l -> keyDescending (insert byKeyDesc x l).
Proof.
  induction 1 as [|y l Hs IH Hall]; simpl.
  - repeat constructor.
  - destruct (Z.leb_spec (key y - key x) 0) as [Hle|Hgt].
    + constructor; [now constructor|].
      constructor; [lia|].
      eapply Forall_impl; [|exact Hall]. simpl; intros; lia.
    + constructor; [exact IH|].
      eapply Permutation_Forall; [symmetry; apply insert_perm|].
      constructor; [lia | exact Hall].
Qed.

Lemma sort_descending (l : list A) : keyDescending (sort byKeyDesc l).
Proof.
  induction l as [|x l IH]; simpl; [constructor|].
  now apply insert_descending.
Qed.

(** Stability: the elements of one key keep their relative order. *)
Lemma filter_insert (p : Z) (x : A) (l : list A) :
  filter (fun m => key m =? p) (insert byKeyDesc x l)
  = filter (fun m => key m =? p) (x :: l).
Proof.
  induction l as [|y l IH]; [reflexivity|].
  cbn [insert]. destruct (Z.leb_spec (key y - key x) 0) as [Hle|Hgt];
    [reflexivity|].
  cbn [filter] in *. rewrite IH.
  destruct (Z.eqb_spec (key x) p), (Z.eqb_spec (key y) p);
    try reflexivity; lia.
Qed.

Lemma filter_sort (p : Z) (l : list A) :
  filter (fun m => key m =? p) (sort byKeyDesc l)
  = filter (fun m => key m =? p) l.
Proof.
  induction l as [|x l IH]; [reflexivity|].
  cbn [sort fold_right]. rewrite filter_insert.
  cbn [filter]. fold (sort byKeyDesc l). now rewrite IH.
Qed.
End SortFacts.

(** ** The matcher builder: tiers and construction order *)

Lemma constant_descending (p : Z) (l : list GroupMatcher) :
  Forall (fun m => priority m = p) l -> priorityDescending l.
Proof.
  induction 1 as [|m l Hm Hl IH]; constructor; [exact IH|].
  eapply Forall_impl; [|exact Hl]. simpl; intros; lia.
Qed.

Lemma descending_app (b : Z) (l1 l2 : list GroupMatcher) :
  priorityDescending l1 -> priorityDescending l2 ->
  Forall (fun m => b <= priority m) l1 ->
  Forall (fun m => priority m <= b) l2 ->
  priorityDescending (l1 ++ l2).
Proof.
  intros H1 H2 Hlo Hhi. induction H1 as [|m l Hs IH Hall]; simpl; [exact H2|].
  inversion Hlo as [|? ? Hm Hl]; subst.
  constructor; [now apply IH|].
  apply Forall_app; split; [exact Hall|].
  eapply Forall_impl; [|exact Hhi]. simpl; intros; lia.
Qed.

Lemma customMatchers_priority (gs : option Groups) :
  Forall (fun m => priority m = 100) (customMatchers gs).
Proof.
  destruct gs as [entries|]; simpl; [|constructor].
  apply Forall_flat_map, Forall_forall. intros [n ps] _.
  destruct (negb _); repeat constructor.
Qed.

Lemma detectedMatchers_priority (hints : list string) :
  Forall (fun m => priority m = 90) (detectedMatchers hints).
Proof.
  unfold detectedMatchers. apply Forall_map, Forall_forall.
  now intros [n ps] _.
Qed.

Lemma tableMatchers_priority (prio : Z) (strip : string -> string)
      (deps : list string) (table : list (string * list string)) :
  Forall (fun m => priority m = prio) (tableMatchers prio strip deps table).
Proof.
  apply Forall_flat_map, Forall_forall. intros [n ps] _.
  destruct (hasAny _ _ _); repeat constructor.
Qed.

Lemma strategyMatchers_descending (s : SplitStrategy) (deps : list string) :
  priorityDescending (strategyMatchers s deps)
  /\ Forall (fun m => priority m <= 90) (strategyMatchers s deps).
Proof.
  destruct s; simpl.
  - assert (H : Forall (fun m => priority m = 50)
                  (strategyMatchers aggressive deps)).
    { apply Forall_flat_map, Forall_forall. intros d _.
      destruct (negb _); repeat constructor. }
    split; [now apply constant_descending with 50|].
    eapply Forall_impl; [|exact H]. simpl; intros; lia.
  - pose proof (tableMatchers_priority 80 stripSlash deps COMMON_LARGE_LIBS) as H80.
    pose proof (tableMatchers_priority 70 stripSlashStar deps MEDIUM_LIB_GROUPS) as H70.
    split.
    + apply descending_app with 80.
      * now apply constant_descending with 80.
      * now apply constant_descending with 70.
      * eapply Forall_impl; [|exact H80]. simpl; intros; lia.
      * eapply Forall_impl; [|exact H70]. simpl; intros; lia.
    + apply Forall_app; split;
        (eapply Forall_impl; [|eassumption]); simpl; intros; lia.
  - assert (H : Forall (fun m => priority m = 80)
                  (strategyMatchers conservative deps)).
    { apply Forall_flat_map, Forall_forall. intros [n ps] _.
      destruct (arrayIncludes _ _); [|constructor].
      destruct (hasAny _ _ _); repeat constructor. }
    split; [now apply constant_descending with 80|].
    eapply Forall_impl; [|exact H]. simpl; intros; lia.
Qed.

(** The matchers are pushed tier by tier, highest tier first. *)
Lemma pushedMatchers_descending (options : OPSOptions)
      (deps hints : list string) :
  priorityDescending (pushedMatchers options deps hints).
Proof.
  unfold pushedMatchers.
  set (s := match strategy options with Some s => s | None => balanced end).
  destruct (strategyMatchers_descending s deps) as [Hs Hle].
  pose proof (customMatchers_priority (groups options)) as Hc.
  pose proof (detectedMatchers_priority hints) as Hd.
  apply descending_app with 100.
  - now apply constant_descending with 100.
  - apply descending_app with 90; trivial.
    + now apply constant_descending with 90.
    + eapply Forall_impl; [|exact Hd]. simpl; intros; lia.
  - eapply Forall_impl; [|exact Hc]. simpl; intros; lia.
  - apply Forall_app; split.
    + eapply Forall_impl; [|exact Hd]. simpl; intros; lia.
    + eapply Forall_impl; [|exact Hle]. simpl; intros; lia.
Qed.

(** Hence the final sort moves nothing. *)
Lemma buildGroupMatchers_pushed (options : OPSOptions)
      (deps hints : list string) :
  buildGroupMatchers options deps hints = pushedMatchers options deps hints.
Proof.
  unfold buildGroupMatchers. apply sort_sorted_id.
  apply StronglySorted_Sorted.
  eapply StronglySorted_ind with
    (P := StronglySorted (fun a b => byPriorityDesc a b <= 0));
    [constructor | | apply pushedMatchers_descending].
  intros a l _ IH Hall. constructor; [exact IH|].
  eapply Forall_impl; [|exact Hall]. unfold byPriorityDesc; simpl; intros; lia.
Qed.

Lemma customMatchers_names (entries : Groups) :
  map name (customMatchers (Some entries))
  = map fst (filter (fun e => negb (Nat.eqb (List.length (snd e)) 0)) entries).
Proof.
  induction entries as [|[n ps] l IH]; [reflexivity|].
  cbn [customMatchers flat_map filter snd] in *.
  destruct (negb _); cbn [app map fst name]; now rewrite IH.
Qed.

Lemma detectedMatchers_names (hints : list string) :
  map name (detectedMatchers hints) = map fst (detectedGroups hints).
Proof.
  unfold detectedMatchers. rewrite map_map. apply map_ext. now intros [n ps].
Qed.

Lemma tableMatchers_names (prio : Z) (strip : string -> string)
      (deps : list string) (table : list (string * list string)) :
  map name (tableMatchers prio strip deps table)
  = map fst (filter (fun e => hasAny strip deps (snd e)) table).
Proof.
  induction table as [|[n ps] l IH]; [reflexivity|].
  unfold tableMatchers in *. cbn [flat_map filter snd].
  destruct (hasAny _ _ _); cbn [app map fst name presetMatcher]; now rewrite IH.
Qed.

Lemma aggressive_names (deps : list string) :
  map name (strategyMatchers aggressive deps)
  = filter (fun dep => negb (JsString.startsWith dep "@types/")) deps.
Proof.
  induction deps as [|d l IH]; [reflexivity|].
  cbn [strategyMatchers flat_map filter] in *.
  destruct (negb _); cbn [app map name]; now rewrite IH.
Qed.

Lemma conservative_names (deps : list string) :
  map name (strategyMatchers conservative deps)
  = map fst
      (filter (fun e => arrayIncludes veryLargeLibs (fst e)
                        && hasAny stripSlash deps (snd e))
              COMMON_LARGE_LIBS).
Proof.
  unfold strategyMatchers.
  induction COMMON_LARGE_LIBS as [|[n ps] l IH]; [reflexivity|].
  cbn [flat_map filter fst snd].
  destruct (arrayIncludes _ _); cbn [andb]; [|exact IH].
  destruct (hasAny _ _ _); cbn [app map fst name presetMatcher]; now rewrite IH.
Qed.

(** ** The resolver *)

Lemma configResolved_pushed (opts : OPSOptions) (deps hints : list string) :
  configResolved opts deps hints
  = (customMatchers (groups opts)
     ++ detectedMatchers hints
     ++ strategyMatchers
          (match strategy opts with Some s => s | None => balanced end) deps)%list.
Proof.
  unfold configResolved. rewrite buildGroupMatchers_pushed. reflexivity.
Qed.

Lemma manualChunks_outside (groupsRef : list GroupMatcher) (id : string) :
  ~ hasNodeModulesSegment (normalizeId id) -> manualChunks groupsRef id = None.
Proof.
  intros H. unfold manualChunks.
  destruct (RegExp.test nodeModulesSegment (normalizeId id)) eqn:E;
    [|reflexivity].
  apply nodeModulesSegment_iff in E. contradiction.
Qed.

Lemma manualChunks_inside (groupsRef : list GroupMatcher) (id : string) :
  hasNodeModulesSegment (normalizeId id) ->
  manualChunks groupsRef id
  = Some match find (fun g => test g (normalizeId id)) groupsRef with
         | Some g => name g
         | None => "vendor"
         end.
Proof.
  intros H. apply nodeModulesSegment_iff in H. unfold manualChunks.
  rewrite H. cbn [negb]. now destruct (find _ _).
Qed.

Lemma manualChunks_first (g : GroupMatcher) (rest : list GroupMatcher)
      (id : string) :
  hasNodeModulesSegment (normalizeId id) ->
  test g (normalizeId id) = true ->
  manualChunks (g :: rest) id = Some (name g).
Proof.
  intros H Ht. rewrite manualChunks_inside by exact H.
  cbn [find]. now rewrite Ht.
Qed.


Lemma find_app_none (A : Type) (f : A -> bool) (l1 l2 : list A) :
  find f l1 = None -> find f (l1 ++ l2) = find f l2.
Proof.
  induction l1 as [|x l IH]; simpl; [reflexivity|].
  destruct (f x); [discriminate | exact IH].
Qed.

(** ** Properties of the specification *)

(** C1 (evaluation of the code at the inputs of the claim).  The predicate
    compiled from the literal [@vue/] is false on
    [/proj/node_modules/@vue/reactivity/dist/index.js] and on the nested
    store path
    [/proj/node_modules/.pnpm/@vue+reactivity@3.2.0/node_modules/@vue/reactivity/dist/index.js]:
    after the body [@vue/] the expression demands [/], [@] or the end of
    the text, and the next character is the [r] of the package name. *)
Theorem vue_scope_pattern_rejects_scope_members :
  makeNodeModulesPattern (PkgString "@vue/")
    "/proj/node_modules/@vue/reactivity/dist/index.js" = false
  /\ makeNodeModulesPattern (PkgString "@vue/")
       "/proj/node_modules/.pnpm/@vue+reactivity@3.2.0/node_modules/@vue/reactivity/dist/index.js"
     = false.
Proof. split; vm_compute; reflexivity. Qed.

(** The same pattern, as part of the built-in [vue] group: a module of the
    [@vue] scope falls through to [vendor], while [vue] itself is
    classified. *)
Lemma vue_preset_on_scope_member :
  resolve (strategyOnly balanced) ["vue"] ["vue"]
    "/proj/node_modules/@vue/reactivity/dist/index.js" = Some "vendor"
  /\ resolve (strategyOnly balanced) ["vue"] ["vue"]
       "/proj/node_modules/vue/dist/vue.runtime.esm-bundler.js" = Some "vue".
Proof. split; vm_compute; reflexivity. Qed.

(** C4.  A module id whose normalized form has no [/node_modules/] segment
    gets no classification ([undefined]), whatever the matcher list is, and
    in particular for the list built from any options, dependency set and
    hint set. *)
Theorem resolve_outside_node_modules (id : string) :
  ~ hasNodeModulesSegment (normalizeId id) ->
  (forall groupsRef, manualChunks groupsRef id = None)
  /\ (forall opts deps hints, resolve opts deps hints id = None).
Proof.
  intros H. split; intros; [|unfold resolve]; now apply manualChunks_outside.
Qed.

Lemma resolve_outside_node_modules_witness :
  ~ hasNodeModulesSegment (normalizeId "/proj/src/main.ts")
  /\ forall opts deps hints, resolve opts deps hints "/proj/src/main.ts" = None.
Proof.
  assert (H : ~ hasNodeModulesSegment (normalizeId "/proj/src/main.ts")).
  { intros H. apply nodeModulesSegment_iff in H. vm_compute in H. discriminate H. }
  split; [exact H|]. exact (proj2 (resolve_outside_node_modules _ H)).
Defined.

(** C5.  Strategy [conservative], dependencies [vue], [echarts], [axios],
    no custom group, no hint: the matcher list is [vue] then [echarts], both
    at priority 80; no matcher is named [axios]; a module of [axios] is
    classified [vendor]. *)
Theorem conservative_scenario (ovr : option bool) (ms : option PrimFloat.float) :
  let opts := {| override := ovr; strategy := Some conservative;
                 minSize := ms; groups := None |} in
  let ms := configResolved opts ["vue"; "echarts"; "axios"] [] in
  map (fun g => (name g, priority g)) ms = [("vue", 80); ("echarts", 80)]
  /\ ~ In "axios" (map name ms)
  /\ resolve opts ["vue"; "echarts"; "axios"] [] "/p/node_modules/axios/index.js"
     = Some "vendor".
Proof.
  cbv zeta. split; [vm_compute; reflexivity|].
  split; [|vm_compute; reflexivity].
  intros H. vm_compute in H. intuition discriminate.
Qed.

(** C7.  [minSize] has no effect: two configurations with the same custom
    groups and the same strategy, whatever their [minSize] (and [override]),
    give the same matcher list for the same dependency set and hint set,
    hence the same answer of the resolver on every module id. *)
Theorem minSize_irrelevant (o1 o2 : OPSOptions) (deps hints : list string) :
  groups o1 = groups o2 ->
  strategy o1 = strategy o2 ->
  buildGroupMatchers o1 deps hints = buildGroupMatchers o2 deps hints
  /\ configResolved o1 deps hints = configResolved o2 deps hints
  /\ forall id, resolve o1 deps hints id = resolve o2 deps hints id.
Proof.
  intros Hg Hs.
  assert (Hb : forall o, buildGroupMatchers o deps hints
                         = sort byPriorityDesc
                             (customMatchers (groups o)
                              ++ detectedMatchers hints
                              ++ strategyMatchers
                                   (match strategy o with
                                    | Some s => s
                                    | None => balanced
                                    end) deps)%list) by reflexivity.
  assert (Hc : configResolved o1 deps hints = configResolved o2 deps hints).
  { rewrite !configResolved_pushed. now rewrite Hg, Hs. }
  split; [rewrite !Hb; now rewrite Hg, Hs|].
  split; [exact Hc|]. intros id. unfold resolve. now rewrite Hc.
Qed.

Lemma minSize_irrelevant_witness :
  resolve {| override := None; strategy := Some balanced;
             minSize := Some 50%float;
             groups := Some [("ui", [PkgString "antd"])] |}
          ["antd"; "vue"] ["vue"] "/p/node_modules/antd/es/index.js"
  = resolve {| override := None; strategy := Some balanced;
               minSize := Some 100000%float;
               groups := Some [("ui", [PkgString "antd"])] |}
            ["antd"; "vue"] ["vue"] "/p/node_modules/antd/es/index.js"
  /\ resolve {| override := None; strategy := Some balanced;
                minSize := Some 100000%float;
                groups := Some [("ui", [PkgString "antd"])] |}
             ["antd"; "vue"] ["vue"] "/p/node_modules/antd/es/index.js"
     = Some "ui".
Proof.
  split; [|vm_compute; reflexivity].
  apply (minSize_irrelevant
           {| override := None; strategy := Some balanced;
              minSize := Some 50%float;
              groups := Some [("ui", [PkgString "antd"])] |}
           {| override := None; strategy := Some balanced;
              minSize := Some 100000%float;
              groups := Some [("ui", [PkgString "antd"])] |}
           ["antd"; "vue"] ["vue"]); reflexivity.
Defined.

(** C6.  Strategy [aggressive], dependency set [a], [b], [@types/a] (in any
    insertion order), no custom group, no hint: exactly two matchers are
    built, named [a] and [b], each at priority 50; none for [@types/a]. *)
Theorem aggressive_skips_type_packages (deps : list string) :
  Permutation ["a"; "b"; "@types/a"] deps ->
  let ms := buildGroupMatchers (strategyOnly aggressive) deps [] in
  Permutation [("a", 50); ("b", 50)] (map (fun g => (name g, priority g)) ms)
  /\ List.length ms = 2%nat
  /\ ~ In "@types/a" (map name ms).
Proof.
  intros Hp ms.
  assert (Hms : Permutation [("a", 50); ("b", 50)]
                  (map (fun g => (name g, priority g)) ms)).
  { subst ms. rewrite buildGroupMatchers_pushed.
    change (pushedMatchers (strategyOnly aggressive) deps [])
      with (strategyMatchers aggressive deps).
    unfold strategyMatchers. rewrite <- Hp. vm_compute. reflexivity. }
  split; [exact Hms|]. split.
  - apply Permutation_length in Hms. rewrite length_map in Hms. now rewrite <- Hms.
  - intros Hin. apply in_map_iff in Hin as (g & Hn & Hg).
    apply (in_map (fun g => (name g, priority g))) in Hg.
    apply (Permutation_in _ (Permutation_sym Hms)) in Hg.
    rewrite Hn in Hg. simpl in Hg.
    destruct Hg as [Hg|[Hg|[]]]; discriminate Hg.
Qed.

Lemma aggressive_skips_type_packages_witness :
  Permutation [("a", 50); ("b", 50)]
    (map (fun g => (name g, priority g))
         (buildGroupMatchers (strategyOnly aggressive) ["a"; "b"; "@types/a"] []))
  /\ map (fun g => (name g, priority g))
         (buildGroupMatchers (strategyOnly aggressive) ["a"; "b"; "@types/a"] [])
     = [("a", 50); ("b", 50)].
Proof.
  split; [|vm_compute; reflexivity].
  apply (aggressive_skips_type_packages (Permutation_refl _)).
Defined.

(** C8.  Under [balanced] the relevance test of a preset is substring
    containment: as soon as some dependency name contains the text [react],
    the built-in [react] group is in the matcher list at priority 80.  The
    dependency set [my-react-wrapper] is such a case, although it names
    neither [react] nor [react-dom]. *)
Theorem balanced_react_preset_by_containment
        (ovr : option bool) (ms : option PrimFloat.float) (gs : option Groups)
        (deps hints : list string) (dep : string) :
  In dep deps ->
  occursIn "react" dep ->
  exists g,
    In g (buildGroupMatchers
            {| override := ovr; strategy := Some balanced;
               minSize := ms; groups := gs |} deps hints)
    /\ name g = "react" /\ priority g = 80
    /\ test g = test (presetMatcher 80 "react" ["react"; "react-dom"]).
Proof.
  intros Hin Hocc.
  exists (presetMatcher 80 "react" ["react"; "react-dom"]).
  split; [|repeat split].
  rewrite buildGroupMatchers_pushed. unfold pushedMatchers.
  cbn [strategy]. apply in_or_app; right. apply in_or_app; right.
  cbn [strategyMatchers]. apply in_or_app; left.
  unfold tableMatchers. apply in_flat_map.
  exists ("react", ["react"; "react-dom"]). split; [now left|].
  assert (H : hasAny stripSlash deps ["react"; "react-dom"] = true).
  { unfold hasAny. cbn [existsb]. apply orb_true_iff; left.
    apply existsb_exists. exists dep. split; [exact Hin|].
    now apply includes_iff. }
  rewrite H. now left.
Qed.

Lemma balanced_react_preset_by_containment_witness :
  (~ In "react" ["my-react-wrapper"] /\ ~ In "react-dom" ["my-react-wrapper"])
  /\ (exists g,
         In g (buildGroupMatchers (strategyOnly balanced) ["my-react-wrapper"] [])
         /\ name g = "react" /\ priority g = 80
         /\ test g = test (presetMatcher 80 "react" ["react"; "react-dom"]))
  /\ map (fun g => (name g, priority g))
         (buildGroupMatchers (strategyOnly balanced) ["my-react-wrapper"] [])
     = [("react", 80)].
Proof.
  split; [split; intros [H|[]]; discriminate H|].
  split; [|vm_compute; reflexivity].
  apply (@balanced_react_preset_by_containment None None None
           ["my-react-wrapper"] [] "my-react-wrapper").
  - now left.
  - exists "my-", "-wrapper". reflexivity.
Defined.

(** C10.  The resolver classifies a module id exactly when its normalized
    form contains [node_modules] with a forward slash on both sides.  An id
    that starts with [node_modules/] (no separator in front), with either
    separator style, or that ends with [/node_modules] gets no
    classification, whatever the matcher list. *)
Theorem node_modules_needs_both_separators (groupsRef : list GroupMatcher) :
  (forall id, manualChunks groupsRef id <> None
              <-> hasNodeModulesSegment (normalizeId id))
  /\ manualChunks groupsRef "node_modules/react/index.js" = None
  /\ manualChunks groupsRef "node_modules\react\index.js" = None
  /\ manualChunks groupsRef "/proj/node_modules" = None
  /\ (forall opts deps hints,
        resolve opts deps hints "node_modules/react/index.js" = None).
Proof.
  assert (Hout : forall gs id,
             RegExp.test nodeModulesSegment (normalizeId id) = false ->
             manualChunks gs id = None).
  { intros gs id H. unfold manualChunks. now rewrite H. }
  split; [|repeat split; intros; apply Hout; vm_compute; reflexivity].
  intros id. split.
  - intros H. apply nodeModulesSegment_iff.
    destruct (RegExp.test nodeModulesSegment (normalizeId id)) eqn:E;
      [reflexivity|]. now rewrite (Hout groupsRef id E) in H.
  - intros H. rewrite manualChunks_inside by exact H. discriminate.
Qed.

(** ** Which matchers can fire on a path *)

Lemma find_rejected (nid : string) (l : list GroupMatcher) :
  Forall (fun g => test g nid = false) l ->
  find (fun g => test g nid) l = None.
Proof.
  induction 1 as [|g l Hg Hl IH]; simpl; [reflexivity|]. now rewrite Hg.
Qed.








(** C3.  Custom group [mylib] with the pattern [vue], strategy [balanced],
    [vue] among the dependencies: the matcher list starts with [mylib] at
    priority 100 and also holds the built-in [vue] group at priority 80;
    every path of [node_modules] that the pattern [vue] matches is accepted
    by both, and the resolver answers [mylib], not [vue]. *)
Theorem custom_group_before_preset
        (ovr : option bool) (ms : option PrimFloat.float)
        (deps hints : list string) (id : string) :
  In "vue" deps ->
  hasNodeModulesSegment (normalizeId id) ->
  makeNodeModulesPattern (PkgString "vue") (normalizeId id) = true ->
  let opts := oneGroup ovr (Some balanced) ms "mylib" ["vue"] in
  resolve opts deps hints id = Some "mylib"
  /\ resolve opts deps hints id <> Some "vue"
  /\ exists custom rest,
       configResolved opts deps hints = custom :: rest
       /\ name custom = "mylib" /\ priority custom = 100
       /\ exists builtin,
            In builtin rest
            /\ name builtin = "vue" /\ priority builtin = 80
            /\ test builtin (normalizeId id) = true.
Proof.
  intros Hdep Hseg Hvue opts.
  set (rest := (detectedMatchers hints ++ strategyMatchers balanced deps)%list).
  set (g := {| name := "mylib";
               test := someTester [makeNodeModulesPattern (PkgString "vue")];
               priority := 100 |}).
  assert (Hlist : configResolved opts deps hints = g :: rest).
  { rewrite configResolved_pushed. reflexivity. }
  assert (Hg : test g (normalizeId id) = true).
  { cbn [test g someTester existsb]. now rewrite Hvue. }
  assert (Hres : resolve opts deps hints id = Some "mylib").
  { unfold resolve. rewrite Hlist. apply (manualChunks_first g rest id Hseg Hg). }
  split; [exact Hres|]. split; [rewrite Hres; discriminate|].
  exists g, rest. repeat split; [exact Hlist|].
  exists (presetMatcher 80 "vue" ["vue"; "@vue/"]). repeat split.
  - subst rest. apply in_or_app; right.
    cbn [strategyMatchers]. apply in_or_app; left.
    unfold tableMatchers. apply in_flat_map.
    exists ("vue", ["vue"; "@vue/"]). split; [right; now left|].
    assert (H : hasAny stripSlash deps ["vue"; "@vue/"] = true).
    { unfold hasAny. cbn [existsb]. apply orb_true_iff; left.
      apply existsb_exists. exists "vue". split; [exact Hdep|].
      vm_compute. reflexivity. }
    rewrite H. now left.
  - cbn [test presetMatcher someTester map existsb]. now rewrite Hvue.
Qed.

Lemma custom_group_before_preset_witness :
  resolve (oneGroup None (Some balanced) None "mylib" ["vue"])
          ["vue"; "axios"] ["vue"]
          "C:\proj\node_modules\.pnpm\vue@3.4.0\node_modules\vue\index.js"
  = Some "mylib"
  /\ map (fun g => (name g, priority g))
         (configResolved (oneGroup None (Some balanced) None "mylib" ["vue"])
                         ["vue"; "axios"] ["vue"])
     = [("mylib", 100); ("vue", 90); ("vue", 80); ("axios", 80)].
Proof.
  split; [|vm_compute; reflexivity].
  apply (@custom_group_before_preset None None ["vue"; "axios"] ["vue"]
           "C:\proj\node_modules\.pnpm\vue@3.4.0\node_modules\vue\index.js").
  - now left.
  - apply nodeModulesSegment_iff. vm_compute. reflexivity.
  - vm_compute. reflexivity.
Defined.

(** ** Text lemmas *)

Lemma sapp_assoc (a b c : string) : ((a ++ b) ++ c)%string = (a ++ b ++ c)%string.
Proof. induction a as [|x a IH]; simpl; [reflexivity | now rewrite IH]. Qed.

Lemma sapp_nil_r (a : string) : (a ++ "")%string = a.
Proof. induction a as [|x a IH]; simpl; [reflexivity | now rewrite IH]. Qed.

Lemma slength_app (a b : string) :
  String.length (a ++ b) = (String.length a + String.length b)%nat.
Proof. induction a as [|x a IH]; simpl; [reflexivity | now rewrite IH]. Qed.

Lemma sapp_same_length (pre s : string) :
  String.length (pre ++ s) = String.length s -> pre = "".
Proof.
  rewrite slength_app. destruct pre; simpl; [reflexivity | lia].
Qed.

(** ** The matcher computes the meaning of an expression *)

Lemma matches_suffix (ic : bool) (r : regex) (s s' : string) :
  matches ic r s s' -> exists pre, s = (pre ++ s')%string.
Proof.
  induction 1 as [s|c a s _|neg cs a s _|r1 r2 s s1 s2 _ IH1 _ IH2
                  |r1 r2 s s' _ IH|r1 r2 s s' _ IH|r s
                  |r s s1 s2 _ IH1 _ IH2|].
  - now exists "".
  - now exists (String a "").
  - now exists (String a "").
  - destruct IH1 as [p1 ->], IH2 as [p2 ->]. exists (p1 ++ p2)%string.
    now rewrite sapp_assoc.
  - exact IH.
  - exact IH.
  - now exists "".
  - destruct IH1 as [p1 ->], IH2 as [p2 ->]. exists (p1 ++ p2)%string.
    now rewrite sapp_assoc.
  - now exists "".
Qed.

Lemma matchK_sound (ic : bool) (r : regex) :
  forall (s : string) (k : string -> bool),
    matchK ic r s k = true -> exists s', matches ic r s s' /\ k s' = true.
Proof.
  induction r as [|c|neg cs|r1 IH1 r2 IH2|r1 IH1 r2 IH2|r IH|];
    intros s k H; cbn [matchK] in H.
  - exists s. split; [constructor | exact H].
  - destruct s as [|a s]; [discriminate|].
    apply andb_true_iff in H as [Hc Hk]. exists s. split; [now constructor | exact Hk].
  - destruct s as [|a s]; [discriminate|].
    apply andb_true_iff in H as [Hc Hk]. exists s. split; [now constructor | exact Hk].
  - apply IH1 in H as (s1 & H1 & H). apply IH2 in H as (s2 & H2 & H).
    exists s2. split; [now apply M_Seq with s1 | exact H].
  - apply orb_true_iff in H as [H|H].
    + apply IH1 in H as (s' & H1 & H). exists s'. split; [now apply M_AltL | exact H].
    + apply IH2 in H as (s' & H2 & H). exists s'. split; [now apply M_AltR | exact H].
  - remember (String.length s) as fuel eqn:Ef. clear Ef.
    revert s H. induction fuel as [|fuel IHf]; intros s H.
    + exists s. split; [constructor | exact H].
    + apply orb_true_iff in H as [H|H].
      * apply IH in H as (s1 & H1 & H). apply andb_true_iff in H as [_ H].
        apply IHf in H as (s2 & H2 & H). exists s2.
        split; [now apply M_StarCons with s1 | exact H].
      * exists s. split; [constructor | exact H].
  - destruct s; [|discriminate]. exists "". split; [constructor | exact H].
Qed.

Lemma matchK_complete (ic : bool) (r : regex) :
  forall (s s' : string) (k : string -> bool),
    matches ic r s s' -> k s' = true -> matchK ic r s k = true.
Proof.
  induction r as [|c|neg cs|r1 IH1 r2 IH2|r1 IH1 r2 IH2|r IH|];
    intros s s' k Hm Hk.
  - inversion Hm; subst. exact Hk.
  - inversion Hm; subst. cbn [matchK]. now apply andb_true_iff.
  - inversion Hm; subst. cbn [matchK]. now apply andb_true_iff.
  - inversion Hm; subst. cbn [matchK]. eapply IH1; [eassumption|].
    eapply IH2; eassumption.
  - cbn [matchK]. apply orb_true_iff.
    inversion Hm; subst; [left; eapply IH1 | right; eapply IH2]; eassumption.
  - cbn [matchK].
    assert (Hfuel : (String.length s <= String.length s)%nat) by lia.
    revert Hfuel. generalize (String.length s) at 2 3. intros fuel.
    remember (Star r) as r0 eqn:Er. revert fuel.
    induction Hm as [| | | | | |r' s|r' s s1 s2 H1 _ H2 IHs|];
      try discriminate Er; injection Er as ->; intros fuel Hfuel.
    + destruct fuel; [exact Hk|]. apply orb_true_iff. now right.
    + specialize (IHs eq_refl Hk).
      destruct (matches_suffix H1) as [pre Hpre].
      destruct (Nat.eq_dec (String.length s1) (String.length s)) as [El|Nl].
      * assert (pre = "") as ->
          by (apply (sapp_same_length pre s1); rewrite <- Hpre; now symmetry).
        simpl in Hpre. subst s1. now apply IHs.
      * assert (Hlt : (String.length s1 < String.length s)%nat).
        { rewrite Hpre, slength_app in *. lia. }
        destruct fuel as [|fuel]; [lia|].
        apply orb_true_iff. left. eapply IH; [exact H1|].
        apply andb_true_iff. split; [now apply Nat.ltb_lt|].
        apply IHs. lia.
  - inversion Hm; subst. exact Hk.
Qed.

Lemma matchK_iff (ic : bool) (r : regex) (s : string) (k : string -> bool) :
  matchK ic r s k = true <-> exists s', matches ic r s s' /\ k s' = true.
Proof.
  split; [apply matchK_sound|]. intros (s' & Hm & Hk).
  now apply matchK_complete with s'.
Qed.

(** [test]: some part of the text matches. *)
Lemma search_iff (ic : bool) (r : regex) (s : string) :
  search ic r s = true
  <-> exists pre tail rest, s = (pre ++ tail)%string /\ matches ic r tail rest.
Proof.
  induction s as [|a s IH]; cbn [search]; rewrite orb_true_iff, matchK_iff.
  - split.
    + intros [(s' & Hm & _)|H]; [|discriminate]. now exists "", "", s'.
    + intros (pre & tail & rest & E & Hm). left.
      destruct pre; [|discriminate]. simpl in E. subst tail. eauto.
  - rewrite IH. split.
    + intros [(s' & Hm & _)|(pre & tail & rest & -> & Hm)].
      * now exists "", (String a s), s'.
      * now exists (String a pre), tail, rest.
    + intros (pre & tail & rest & E & Hm). destruct pre as [|b pre].
      * simpl in E. subst tail. left. eauto.
      * injection E as -> ->. right. now exists pre, tail, rest.
Qed.

(** ** The meaning of a compiled literal *)

Lemma matches_Seq_inv (ic : bool) (r1 r2 : regex) (s s2 : string) :
  matches ic (Seq r1 r2) s s2 ->
  exists s1, matches ic r1 s s1 /\ matches ic r2 s1 s2.
Proof. inversion 1; subst; eauto. Qed.

Lemma matches_Alt_inv (ic : bool) (r1 r2 : regex) (s s' : string) :
  matches ic (Alt r1 r2) s s' -> matches ic r1 s s' \/ matches ic r2 s s'.
Proof. inversion 1; subst; auto. Qed.

Lemma matches_Chr_inv (ic : bool) (c : ascii) (s s' : string) :
  matches ic (Chr c) s s' -> exists a, s = String a s' /\ chr_eq ic c a = true.
Proof. inversion 1; subst; eauto. Qed.

Lemma matches_Class_inv (ic neg : bool) (cs : list ascii) (s s' : string) :
  matches ic (Class neg cs) s s' ->
  exists a, s = String a s' /\ class_mem ic neg cs a = true.
Proof. inversion 1; subst; eauto. Qed.

Lemma chr_eq_at (a : ascii) : chr_eq true "@" a = Ascii.eqb a "@".
Proof. destruct a as [[] [] [] [] [] [] [] []]; reflexivity. Qed.

Lemma chr_eq_slash (a : ascii) : chr_eq true "/" a = Ascii.eqb a "/".
Proof. destruct a as [[] [] [] [] [] [] [] []]; reflexivity. Qed.

Lemma class_not_slash (a : ascii) :
  class_mem true true ["/"%char] a = negb (Ascii.eqb a "/").
Proof. destruct a as [[] [] [] [] [] [] [] []]; reflexivity. Qed.

Lemma class_dot (a : ascii) :
  class_mem true false ["."%char] a = chr_eq true "." a.
Proof. unfold class_mem. cbn [existsb xorb]. now rewrite orb_false_r. Qed.

(** A sequence of characters under the [i] flag. *)
Lemma matches_lit (p s s' : string) :
  matches true (lit p) s s'
  <-> exists body, s = (body ++ s')%string /\ sameText p body = true.
Proof.
  revert s. induction p as [|c p IH]; intros s; cbn [lit]; split.
  - inversion 1; subst. now exists "".
  - intros (body & -> & H). destruct body; [constructor | discriminate].
  - intros H. apply matches_Seq_inv in H as (s1 & H1 & H2).
    apply matches_Chr_inv in H1 as (a & -> & Hc).
    apply IH in H2 as (body & -> & Hb). exists (String a body).
    split; [reflexivity|]. cbn [sameText]. now rewrite Hc.
  - intros (body & -> & H). destruct body as [|a body]; [discriminate|].
    cbn [sameText] in H. apply andb_true_iff in H as [Hc Hb].
    apply M_Seq with (body ++ s')%string; [now constructor|].
    apply IH. now exists body.
Qed.

Lemma matches_noSlash_star (s s' : string) :
  matches true (Star (Class true ["/"%char])) s s'
  <-> exists sc, s = (sc ++ s')%string /\ noSlash sc = true.
Proof.
  split.
  - intros H. remember (Star (Class true ["/"%char])) as r eqn:Er.
    induction H as [| | | | | |r' s|r' s s1 s2 H1 _ H2 IH|];
      try discriminate Er; injection Er as ->.
    + now exists "".
    + apply matches_Class_inv in H1 as (a & -> & Ha).
      destruct (IH eq_refl) as (sc & -> & Hsc). exists (String a sc).
      split; [reflexivity|]. cbn [noSlash].
      rewrite class_not_slash in Ha. now rewrite Ha.
  - intros (sc & -> & H). induction sc as [|a sc IH]; [constructor|].
    cbn [noSlash] in H. apply andb_true_iff in H as [Ha Hsc].
    apply M_StarCons with (sc ++ s')%string; [|now apply IH].
    constructor. now rewrite class_not_slash.
Qed.

(** [@[^/]+/] *)
Lemma matches_scope (s s' : string) :
  matches true
    (Seq (Chr "@") (Seq (Plus (Class true ["/"%char])) (Chr "/"))) s s'
  <-> exists c sc, s = (String "@" (String c sc ++ "/") ++ s')%string
                   /\ noSlash (String c sc) = true.
Proof.
  split.
  - intros H. apply matches_Seq_inv in H as (s1 & H1 & H).
    apply matches_Chr_inv in H1 as (a & -> & Ha).
    rewrite chr_eq_at in Ha. apply Ascii.eqb_eq in Ha as ->.
    apply matches_Seq_inv in H as (s2 & H2 & H3).
    unfold Plus in H2. apply matches_Seq_inv in H2 as (s3 & Hc & Hs).
    apply matches_Class_inv in Hc as (c & -> & Hc).
    apply matches_noSlash_star in Hs as (sc & -> & Hsc).
    apply matches_Chr_inv in H3 as (b & -> & Hb).
    rewrite chr_eq_slash in Hb. apply Ascii.eqb_eq in Hb as ->.
    exists c, sc. split.
    + cbn [append]. now rewrite sapp_assoc.
    + cbn [noSlash]. rewrite class_not_slash in Hc. now rewrite Hc.
  - intros (c & sc & -> & H). cbn [noSlash] in H.
    apply andb_true_iff in H as [Hc Hsc].
    cbn [append]. rewrite sapp_assoc. cbn [append].
    apply M_Seq with (String c (sc ++ String "/" s'))%string;
      [constructor; reflexivity|].
    apply M_Seq with (String "/" s'); [|constructor; reflexivity].
    unfold Plus. apply M_Seq with (sc ++ String "/" s')%string.
    + constructor. now rewrite class_not_slash.
    + apply matches_noSlash_star. now exists sc.
Qed.

(** [(?:[.]pnpm/)?] *)
Lemma matches_store (s s' : string) :
  matches true (Opt (Seq (Class false ["."%char]) (lit "pnpm/"))) s s'
  <-> exists store, s = (store ++ s')%string
                    /\ (store = "" \/ sameText ".pnpm/" store = true).
Proof.
  unfold Opt. split.
  - intros H. apply matches_Alt_inv in H as [H|H].
    + apply matches_Seq_inv in H as (s1 & H1 & H2).
      apply matches_Class_inv in H1 as (a & -> & Ha). rewrite class_dot in Ha.
      apply matches_lit in H2 as (body & -> & Hb).
      exists (String a body). split; [reflexivity|]. right.
      change (chr_eq true "." a && sameText "pnpm/" body = true).
      now rewrite Ha.
    + inversion H; subst. exists "". split; [reflexivity | now left].
  - intros (store & -> & [->|H]); [apply M_AltR; constructor|].
    apply M_AltL. destruct store as [|a body]; [discriminate|].
    change (chr_eq true "." a && sameText "pnpm/" body = true) in H.
    apply andb_true_iff in H as [Ha Hb].
    apply M_Seq with (body ++ s')%string.
    + constructor. now rewrite class_dot.
    + apply matches_lit. now exists body.
Qed.

(** [(?:/|@|$)] *)
Lemma matches_boundary (s s' : string) :
  matches true (Alt (Chr "/") (Alt (Chr "@") Eos)) s s'
  <-> (s = String "/" s' \/ s = String "@" s' \/ (s = "" /\ s' = "")).
Proof.
  split.
  - intros H. apply matches_Alt_inv in H as [H|H].
    + apply matches_Chr_inv in H as (a & -> & Ha).
      rewrite chr_eq_slash in Ha. apply Ascii.eqb_eq in Ha as ->. now left.
    + apply matches_Alt_inv in H as [H|H].
      * apply matches_Chr_inv in H as (a & -> & Ha).
        rewrite chr_eq_at in Ha. apply Ascii.eqb_eq in Ha as ->. right; now left.
      * inversion H; subst. right; right. now split.
  - intros [->|[->|[-> ->]]].
    + apply M_AltL. constructor. reflexivity.
    + apply M_AltR, M_AltL. constructor. reflexivity.
    + apply M_AltR, M_AltR. constructor.
Qed.

(** The base: the literal, after an optional scope when it is unscoped. *)
Lemma matches_base (pkg s s' : string) :
  matches true
    (if JsString.startsWith pkg "@" then lit pkg else unscopedBase (lit pkg))
    s s'
  <-> exists scope body,
        s = (scope ++ body ++ s')%string
        /\ scopeDirectory pkg scope /\ sameText pkg body = true.
Proof.
  unfold scopeDirectory. destruct (JsString.startsWith pkg "@") eqn:E.
  - rewrite matches_lit. split.
    + intros (body & -> & H). exists "", body. repeat split; auto.
    + intros (scope & body & -> & [->|[Hf _]] & H); [|discriminate].
      now exists body.
  - unfold unscopedBase, Opt. split.
    + intros H. apply matches_Seq_inv in H as (s1 & H1 & H2).
      apply matches_lit in H2 as (body & -> & Hb).
      apply matches_Alt_inv in H1 as [H1|H1].
      * apply matches_scope in H1 as (c & sc & -> & Hsc).
        exists (String "@" (String c sc ++ "/")), body.
        split; [reflexivity|]. split; [right; split; eauto | exact Hb].
      * inversion H1; subst. exists "", body. repeat split; auto.
    + intros (scope & body & -> & Hs & Hb).
      apply M_Seq with (body ++ s')%string; [|apply matches_lit; eauto].
      destruct Hs as [->|(_ & c & sc & -> & Hsc)].
      * apply M_AltR. constructor.
      * apply M_AltL. apply matches_scope. now exists c, sc.
Qed.

Lemma sameText_refl (p : string) : sameText p p = true.
Proof.
  induction p as [|c p IH]; [reflexivity|]. cbn [sameText]. rewrite IH.
  unfold chr_eq. now rewrite Ascii.eqb_refl.
Qed.

Lemma sameText_length (p t : string) :
  sameText p t = true -> String.length t = String.length p.
Proof.
  revert t. induction p as [|c p IH]; intros [|a t] H; try discriminate H;
    [reflexivity|].
  cbn [sameText] in H. apply andb_true_iff in H as [_ H].
  simpl. now rewrite (IH t H).
Qed.

Lemma sapp_inj_length (a a' b b' : string) :
  String.length a = String.length a' ->
  (a ++ b)%string = (a' ++ b')%string -> a = a' /\ b = b'.
Proof.
  revert a'. induction a as [|x a IH]; intros [|y a'] Hl H;
    try discriminate Hl; simpl in *; [now split|].
  injection H as -> H. injection Hl as Hl.
  destruct (IH a' Hl H) as [-> ->]. now split.
Qed.

(** The paths a compiled literal accepts. *)
Lemma makeNodeModulesPattern_occurrence (pkg id : string) :
  makeNodeModulesPattern (PkgString pkg) id = true
  <-> literalOccurrence pkg id.
Proof.
  rewrite makeNodeModulesPattern_literal.
  unfold RegExp.test, nodeModulesRegExp, literalOccurrence.
  cbn [source ignoreCase]. rewrite search_iff. split.
  - intros (pre & tail & rest & -> & H).
    apply matches_Seq_inv in H as (s1 & H1 & H).
    apply matches_lit in H1 as (nm & -> & Hnm).
    apply matches_Seq_inv in H as (s2 & H2 & H).
    apply matches_store in H2 as (store & -> & Hst).
    apply matches_Seq_inv in H as (s3 & H3 & H4).
    apply matches_base in H3 as (scope & body & -> & Hsc & Hb).
    exists pre, nm, store, scope, body, s3. repeat split; trivial.
    apply matches_boundary in H4 as [->|[->|[-> _]]]; unfold atBoundary; eauto.
  - intros (pre & nm & store & scope & body & post & -> & Hnm & Hst & Hsc
            & Hb & Hp).
    assert (Hend : exists rest,
               matches true (Alt (Chr "/") (Alt (Chr "@") Eos)) post rest).
    { destruct Hp as [-> | [rest [-> | ->]]].
      - exists "". apply matches_boundary. auto.
      - exists rest. apply matches_boundary. auto.
      - exists rest. apply matches_boundary. auto. }
    destruct Hend as [rest Hend].
    exists pre, (nm ++ store ++ scope ++ body ++ post)%string, rest.
    split; [reflexivity|].
    apply M_Seq with (store ++ scope ++ body ++ post)%string;
      [apply matches_lit; eauto|].
    apply M_Seq with (scope ++ body ++ post)%string;
      [apply matches_store; eauto|].
    apply M_Seq with post; [|exact Hend].
    apply matches_base. eauto.
Qed.

(** X1.  The predicate compiled from a literal accepts exactly the paths in
    which, up to the case of letters, [/node_modules/] is followed by an
    optional [.pnpm/], then (for a literal that does not start with [@]) an
    optional [@scope/] directory, then the literal, then [/], [@] or the end
    of the path. *)
Theorem literal_pattern_meaning (pkg id : string) :
  makeNodeModulesPattern (PkgString pkg) id = true
  <-> literalOccurrence pkg id.
Proof. apply makeNodeModulesPattern_occurrence. Qed.

(** X2.  A literal accepts its own package directory, directly under
    [node_modules] and inside the [.pnpm] store, whatever stands in front,
    when the name is followed by [/], by the [@] of a version or by the end
    of the path. *)
Theorem literal_accepts_package_directory (pkg pre post : string) :
  atBoundary post ->
  makeNodeModulesPattern (PkgString pkg)
    (pre ++ "/node_modules/" ++ pkg ++ post) = true
  /\ makeNodeModulesPattern (PkgString pkg)
       (pre ++ "/node_modules/.pnpm/" ++ pkg ++ post) = true.
Proof.
  intros Hp. split; apply makeNodeModulesPattern_occurrence.
  - exists pre, "/node_modules/", "", "", pkg, post.
    repeat split; auto using sameText_refl. now left.
  - exists pre, "/node_modules/", ".pnpm/", "", pkg, post.
    repeat split; auto using sameText_refl. now left.
Qed.

Lemma literal_accepts_package_directory_witness :
  makeNodeModulesPattern (PkgString "lodash")
    ("C:/proj" ++ "/node_modules/" ++ "lodash" ++ "/debounce.js") = true
  /\ makeNodeModulesPattern (PkgString "lodash")
       ("C:/proj" ++ "/node_modules/.pnpm/" ++ "lodash" ++ "@4.17.21/x.js")
     = true.
Proof.
  split.
  - apply (@literal_accepts_package_directory "lodash" "C:/proj" "/debounce.js").
    right. exists "debounce.js". now left.
  - apply (@literal_accepts_package_directory "lodash" "C:/proj" "@4.17.21/x.js").
    right. exists "4.17.21/x.js". now right.
Defined.

(** X3.  A literal that does not start with [@] also accepts the package of
    that name under any scope: [react] accepts the directory of
    [@types/react]. *)
Theorem unscoped_literal_accepts_any_scope (pkg sc pre post : string) :
  JsString.startsWith pkg "@" = false ->
  sc <> "" ->
  noSlash sc = true ->
  atBoundary post ->
  makeNodeModulesPattern (PkgString pkg)
    (pre ++ "/node_modules/" ++ "@" ++ sc ++ "/" ++ pkg ++ post) = true.
Proof.
  intros Hu Hne Hsc Hp. apply makeNodeModulesPattern_occurrence.
  exists pre, "/node_modules/", "", (String "@" (sc ++ "/")), pkg, post.
  repeat split; auto using sameText_refl.
  - cbn [append]. now rewrite sapp_assoc.
  - right. split; [exact Hu|]. destruct sc as [|c sc]; [contradiction|].
    now exists c, sc.
Qed.

Lemma unscoped_literal_accepts_any_scope_witness :
  makeNodeModulesPattern (PkgString "react")
    ("/p" ++ "/node_modules/" ++ "@" ++ "types" ++ "/" ++ "react" ++ "/index.d.ts")
  = true
  /\ resolve (strategyOnly aggressive) ["react"; "@types/react"] []
       "/p/node_modules/@types/react/index.d.ts" = Some "react".
Proof.
  split; [|vm_compute; reflexivity].
  apply (@unscoped_literal_accepts_any_scope "react" "types" "/p" "/index.d.ts").
  - reflexivity.
  - discriminate.
  - reflexivity.
  - right. exists "index.d.ts". now left.
Defined.

Lemma startsWithText_app (p t x : string) :
  sameText p t = true -> startsWithText p (t ++ x) = true.
Proof.
  revert t. induction p as [|c p IH]; intros [|a t] H; try discriminate H;
    [now destruct x|].
  cbn [sameText] in H. apply andb_true_iff in H as [Hc H].
  cbn [append startsWithText]. rewrite Hc. now apply IH.
Qed.

Lemma countText_occurrence (p pre s : string) :
  startsWithText p s = true -> (1 <= countText p (pre ++ s))%nat.
Proof.
  intros H. induction pre as [|a pre IH]; cbn [append].
  - destruct s; cbn [countText]; rewrite H; lia.
  - cbn [countText]. lia.
Qed.

(** With one occurrence in all, two occurrences are the same one. *)
Lemma occurrence_unique (p pre pre' s s' : string) :
  countText p (pre ++ s) = 1%nat ->
  (pre ++ s)%string = (pre' ++ s')%string ->
  startsWithText p s = true -> startsWithText p s' = true ->
  pre = pre'.
Proof.
  revert pre'. induction pre as [|a pre IH]; intros [|b pre'] Hc E Hs Hs';
    cbn [append] in *.
  - reflexivity.
  - exfalso. subst s. cbn [countText] in Hc. rewrite Hs in Hc.
    pose proof (countText_occurrence p pre' s' Hs'). lia.
  - exfalso. subst s'. cbn [countText] in Hc. rewrite Hs' in Hc.
    pose proof (countText_occurrence p pre s Hs). lia.
  - injection E as -> E. f_equal. apply IH; trivial.
    cbn [countText] in Hc.
    pose proof (countText_occurrence p pre s Hs).
    destruct (startsWithText p (String b (pre ++ s))); lia.
Qed.

Lemma chr_eq_dot (a : ascii) : chr_eq true "." a = Ascii.eqb a ".".
Proof. destruct a as [[] [] [] [] [] [] [] []]; reflexivity. Qed.

(** A longer name after the single [node_modules] segment. *)
Lemma makeNodeModulesPattern_longer_name
        (p0 : ascii) (p' pre rest : string) (c : ascii) :
  p0 <> "."%char -> c <> "/"%char -> c <> "@"%char ->
  countText "/node_modules/"
    (pre ++ "/node_modules/" ++ String p0 p' ++ String c rest) = 1%nat ->
  makeNodeModulesPattern (PkgString (String p0 p'))
    (pre ++ "/node_modules/" ++ String p0 p' ++ String c rest) = false.
Proof.
  intros Hdot Hslash Hat Hcount.
  destruct (makeNodeModulesPattern _ _) eqn:E; [exfalso | reflexivity].
  apply makeNodeModulesPattern_occurrence in E
    as (pre' & nm & store & scope & body & post & Hid & Hnm & Hst & Hsc
        & Hb & Hp).
  assert (Hpre : pre = pre').
  { eapply occurrence_unique; [exact Hcount | exact Hid | reflexivity |].
    now apply startsWithText_app. }
  subst pre'.
  assert (Htail : ("/node_modules/" ++ String p0 p' ++ String c rest)%string
                  = (nm ++ store ++ scope ++ body ++ post)%string).
  { revert Hid. clear. induction pre as [|a pre IH]; cbn [append]; intros H;
      [exact H|]. injection H as H. now apply IH. }
  apply sapp_inj_length in Htail as [_ Htail];
    [|now rewrite (sameText_length _ _ Hnm)].
  assert (store = "") as ->.
  { destruct Hst as [->|Hst]; [reflexivity|]. exfalso.
    destruct store as [|a store]; [discriminate|].
    change (chr_eq true "." a && sameText "pnpm/" store = true) in Hst.
    apply andb_true_iff in Hst as [Ha _].
    rewrite chr_eq_dot in Ha. apply Ascii.eqb_eq in Ha as ->.
    cbn [append] in Htail. injection Htail as Hp0 _. contradiction. }
  assert (scope = "") as ->.
  { destruct Hsc as [->|(Hu & c' & sc & -> & _)]; [reflexivity|]. exfalso.
    cbn [append] in Htail. injection Htail as -> _.
    unfold JsString.startsWith in Hu. cbn [String.prefix] in Hu.
    destruct (ascii_dec "@" "@"); [|contradiction].
    now destruct p'. }
  cbn [append] in Htail.
  change (String p0 (p' ++ String c rest))
    with (String p0 p' ++ String c rest)%string in Htail.
  apply sapp_inj_length in Htail as [_ Hpost];
    [|now rewrite (sameText_length _ _ Hb)].
  subst post. destruct Hp as [Hp | [t [Hp | Hp]]];
    [discriminate | injection Hp as -> _ | injection Hp as -> _]; contradiction.
Qed.

(** X4.  The boundary after a literal, in general.  In a path with a single
    [node_modules] segment that is followed by the literal and then by a
    character other than [/] and [@], the literal is rejected: [react] does
    not accept the directory [react-dom], and a scope pattern such as
    [@vue/] does not accept [@vue/reactivity]. *)
Theorem literal_rejects_longer_name
        (p0 : ascii) (p' pre rest : string) (c : ascii) :
  p0 <> "."%char -> c <> "/"%char -> c <> "@"%char ->
  countText "/node_modules/"
    (pre ++ "/node_modules/" ++ String p0 p' ++ String c rest) = 1%nat ->
  makeNodeModulesPattern (PkgString (String p0 p'))
    (pre ++ "/node_modules/" ++ String p0 p' ++ String c rest) = false.
Proof. apply makeNodeModulesPattern_longer_name. Qed.

Lemma literal_rejects_longer_name_witness :
  makeNodeModulesPattern (PkgString "react")
    ("/proj" ++ "/node_modules/" ++ "react" ++ "-dom/index.js") = false
  /\ makeNodeModulesPattern (PkgString "@vue/")
       ("/proj" ++ "/node_modules/" ++ "@vue/" ++ "reactivity/dist/index.js")
     = false.
Proof.
  split.
  - apply (@literal_rejects_longer_name "r" "eact" "/proj" "dom/index.js" "-");
      try discriminate. vm_compute. reflexivity.
  - apply (@literal_rejects_longer_name "@" "vue/" "/proj"
             "eactivity/dist/index.js" "r");
      try discriminate. vm_compute. reflexivity.
Defined.

(** ** The path normalizer *)

Lemma replacePercent5C_hit (rest : string) :
  JsString.replacePercent5C ("%5C" ++ rest) = String "/" (JsString.replacePercent5C rest).
Proof. reflexivity. Qed.

Lemma replacePercent5C_miss (a : ascii) (s : string) :
  String.prefix "%5C" (String a s) = false ->
  JsString.replacePercent5C (String a s)
  = String a (JsString.replacePercent5C s).
Proof.
  intros H.
  destruct a as [[] [] [] [] [] [] [] []]; try reflexivity.
  destruct s as [|b s]; [reflexivity|].
  destruct b as [[] [] [] [] [] [] [] []]; try reflexivity.
  destruct s as [|c s]; [reflexivity|].
  destruct c as [[] [] [] [] [] [] [] []]; try reflexivity.
  destruct s; cbv in H; discriminate H.
Qed.

(** Induction along the scan of [replacePercent5C]. *)
Lemma percent5C_ind (P : string -> Prop) :
  P "" ->
  (forall rest, P rest -> P ("%5C" ++ rest)%string) ->
  (forall a s, String.prefix "%5C" (String a s) = false ->
               P s -> P (String a s)) ->
  forall s, P s.
Proof.
  intros H0 Hhit Hmiss s.
  remember (String.length s) as n eqn:En.
  assert (Hn : (String.length s <= n)%nat) by lia. clear En.
  revert s Hn. induction n as [|n IH]; intros s Hn.
  - destruct s; [exact H0 | simpl in Hn; lia].
  - destruct s as [|a s]; [exact H0|].
    destruct (String.prefix "%5C" (String a s)) eqn:E.
    + apply prefix_iff in E as [rest E]. rewrite E. apply Hhit, IH.
      apply (f_equal String.length) in E. simpl in *. lia.
    + apply Hmiss; [exact E|]. apply IH. simpl in Hn. lia.
Qed.

Lemma includes_cons (a : ascii) (s sub : string) :
  JsString.includes (String a s) sub
  = String.prefix sub (String a s) || JsString.includes s sub.
Proof. reflexivity. Qed.

Lemma prefix_char (c a : ascii) (s : string) :
  String.prefix (String c "") (String a s) = Ascii.eqb a c.
Proof.
  cbn [String.prefix]. destruct (ascii_dec c a) as [->|Hne].
  - rewrite Ascii.eqb_refl. now destruct s.
  - symmetry. apply Ascii.eqb_neq. congruence.
Qed.

(** The first character of the result comes from the input unless it is
    the [/] of a replacement. *)
Lemma replacePercent5C_head (s t : string) (b : ascii) :
  JsString.replacePercent5C s = String b t -> b <> "/"%char ->
  exists s', s = String b s' /\ t = JsString.replacePercent5C s'.
Proof.
  revert t b.
  induction s as [|rest IH|a s Hmiss IH] using percent5C_ind; intros t b H Hb.
  - discriminate H.
  - rewrite replacePercent5C_hit in H. injection H as <- _. contradiction.
  - rewrite replacePercent5C_miss in H by exact Hmiss.
    injection H as -> <-. eauto.
Qed.

Lemma prefix_after_replace (a : ascii) (s : string) :
  String.prefix "%5C" (String a (JsString.replacePercent5C s)) = true ->
  String.prefix "%5C" (String a s) = true.
Proof.
  intros H. apply prefix_iff in H as [post H]. cbn [append] in H.
  injection H as -> H.
  apply replacePercent5C_head in H as (s1 & -> & H); [|discriminate].
  symmetry in H.
  apply replacePercent5C_head in H as (s2 & -> & _); [|discriminate].
  now destruct s2.
Qed.

Lemma replacePercent5C_clean (s : string) :
  JsString.includes (JsString.replacePercent5C s) "%5C" = false.
Proof.
  induction s as [|rest IHs|a s Hmiss IHs] using percent5C_ind.
  - reflexivity.
  - rewrite replacePercent5C_hit, includes_cons. now rewrite IHs.
  - rewrite replacePercent5C_miss by exact Hmiss.
    rewrite includes_cons, IHs, orb_false_r.
    destruct (String.prefix "%5C" (String a (JsString.replacePercent5C s)))
      eqn:E; [|reflexivity].
    apply prefix_after_replace in E. congruence.
Qed.

Lemma replacePercent5C_fixed (t : string) :
  JsString.includes t "%5C" = false -> JsString.replacePercent5C t = t.
Proof.
  induction t as [|a t IH]; [reflexivity|].
  rewrite includes_cons. intros H. apply orb_false_iff in H as [Hp Hi].
  rewrite replacePercent5C_miss by exact Hp. now rewrite IH.
Qed.

Lemma replacePercent5C_no_backslash (s : string) :
  JsString.includes s "\" = false ->
  JsString.includes (JsString.replacePercent5C s) "\" = false.
Proof.
  induction s as [|rest IHs|a s Hmiss IHs] using percent5C_ind; intros H.
  - reflexivity.
  - rewrite replacePercent5C_hit, includes_cons, prefix_char.
    apply IHs. cbn [append] in H.
    rewrite !includes_cons, !prefix_char in H. exact H.
  - rewrite replacePercent5C_miss by exact Hmiss.
    rewrite includes_cons, prefix_char in *.
    apply orb_false_iff in H as [Ha Hs]. rewrite Ha. now apply IHs.
Qed.

Lemma replaceChar_clean (s : string) :
  JsString.includes (JsString.replaceChar "\" "/" s) "\" = false.
Proof.
  induction s as [|a s IH]; [reflexivity|]. cbn [JsString.replaceChar].
  destruct (Ascii.eqb a "\") eqn:E; cbn [append];
    rewrite includes_cons, prefix_char, IH; [reflexivity|].
  now rewrite E.
Qed.

Lemma replaceChar_fixed (t : string) :
  JsString.includes t "\" = false -> JsString.replaceChar "\" "/" t = t.
Proof.
  induction t as [|a t IH]; [reflexivity|].
  rewrite includes_cons, prefix_char. intros H.
  apply orb_false_iff in H as [Ha Ht].
  cbn [JsString.replaceChar]. rewrite Ha. now rewrite IH.
Qed.

Lemma normalizeId_no_separator_left (id : string) :
  JsString.includes (normalizeId id) "\" = false
  /\ JsString.includes (normalizeId id) "%5C" = false.
Proof.
  unfold normalizeId. split.
  - apply replacePercent5C_no_backslash, replaceChar_clean.
  - apply replacePercent5C_clean.
Qed.

(** X5.  A normalized id holds no backslash and no [%5C]. *)
Theorem normalizeId_clean (id : string) :
  JsString.includes (normalizeId id) "\" = false
  /\ JsString.includes (normalizeId id) "%5C" = false.
Proof. apply normalizeId_no_separator_left. Qed.

(** X6.  Normalizing is idempotent, and the resolver gives the same answer
    on an id and on its normalized form. *)
Theorem normalizeId_idempotent (groupsRef : list GroupMatcher) (id : string) :
  normalizeId (normalizeId id) = normalizeId id
  /\ manualChunks groupsRef (normalizeId id) = manualChunks groupsRef id.
Proof.
  assert (H : normalizeId (normalizeId id) = normalizeId id).
  { destruct (normalizeId_no_separator_left id) as [Hb Hp].
    unfold normalizeId at 1. rewrite (replaceChar_fixed _ Hb).
    now apply replacePercent5C_fixed. }
  split; [exact H|]. unfold manualChunks. now rewrite H.
Qed.

(** X7.  An id without backslash and without [%5C] is its own normal
    form. *)
Theorem normalizeId_fixed (id : string) :
  JsString.includes id "\" = false ->
  JsString.includes id "%5C" = false ->
  normalizeId id = id.
Proof.
  intros Hb Hp. unfold normalizeId. rewrite (replaceChar_fixed _ Hb).
  now apply replacePercent5C_fixed.
Qed.

Lemma normalizeId_fixed_witness :
  normalizeId "/proj/node_modules/vue/dist/vue.js%5c"
  = "/proj/node_modules/vue/dist/vue.js%5c".
Proof.
  apply (@normalizeId_fixed "/proj/node_modules/vue/dist/vue.js%5c");
    vm_compute; reflexivity.
Defined.

(** ** First match and priority *)

Lemma find_first (A : Type) (f : A -> bool) (l : list A) (x : A) :
  find f l = Some x
  <-> exists before after,
        l = (before ++ x :: after)%list
        /\ Forall (fun y => f y = false) before /\ f x = true.
Proof.
  induction l as [|y l IH]; cbn [find].
  - split; [discriminate|]. intros (b & a & E & _). now destruct b.
  - destruct (f y) eqn:Ey.
    + split.
      * intros [= ->]. now exists [], l.
      * intros (b & a & E & Hb & Hx). destruct b as [|z b].
        -- now injection E as ->.
        -- injection E as -> _. inversion Hb; congruence.
    + rewrite IH. split.
      * intros (b & a & -> & Hb & Hx). exists (y :: b), a.
        repeat split; auto.
      * intros (b & a & E & Hb & Hx). destruct b as [|z b].
        -- injection E as -> _. congruence.
        -- injection E as -> ->. inversion Hb; subst. now exists b, a.
Qed.

Lemma find_none_iff (A : Type) (f : A -> bool) (l : list A) :
  find f l = None <-> Forall (fun y => f y = false) l.
Proof.
  induction l as [|y l IH]; cbn [find]; [split; auto|].
  destruct (f y) eqn:Ey.
  - split; [discriminate|]. inversion 1; congruence.
  - rewrite IH. split; [now constructor | now inversion 1].
Qed.

Lemma descending_tail (l1 l2 : list GroupMatcher) :
  priorityDescending (l1 ++ l2) -> priorityDescending l2.
Proof.
  induction l1 as [|x l1 IH]; simpl; [trivial|].
  intros H. apply StronglySorted_inv in H as [H _]. now apply IH.
Qed.

(** X8.  The resolver answers with the name of the first matcher of the
    list, in list order, that accepts the normalized path, and with
    [vendor] exactly when the path is in [node_modules] and no matcher
    accepts it. *)
Theorem manualChunks_first_match
        (groupsRef : list GroupMatcher) (id n : string) :
  manualChunks groupsRef id = Some n
  <-> hasNodeModulesSegment (normalizeId id)
      /\ ((exists g, firstAccepting (normalizeId id) groupsRef g /\ name g = n)
          \/ (Forall (fun m => test m (normalizeId id) = false) groupsRef
              /\ n = "vendor")).
Proof.
  split.
  - intros H.
    assert (Hseg : hasNodeModulesSegment (normalizeId id)).
    { apply nodeModulesSegment_iff. unfold manualChunks in H.
      destruct (RegExp.test nodeModulesSegment (normalizeId id));
        [reflexivity | discriminate H]. }
    split; [exact Hseg|]. rewrite manualChunks_inside in H by exact Hseg.
    destruct (find _ groupsRef) as [g|] eqn:E; injection H as <-.
    + left. exists g. split; [|reflexivity]. now apply find_first in E.
    + right. split; [now apply find_none_iff | reflexivity].
  - intros [Hseg H]. rewrite manualChunks_inside by exact Hseg.
    destruct H as [(g & Hg & <-)|[Hall ->]].
    + apply find_first in Hg. now rewrite Hg.
    + apply find_none_iff in Hall. now rewrite Hall.
Qed.

(** X9.  On the list of the matcher builder the answer has the highest
    priority among the matchers that accept the path: when some matcher
    accepts a path of [node_modules], the resolver returns the name of an
    accepting matcher whose priority is at least that of every accepting
    matcher, and never [vendor] by default. *)
Theorem resolve_highest_priority
        (opts : OPSOptions) (deps hints : list string) (id : string)
        (m : GroupMatcher) :
  hasNodeModulesSegment (normalizeId id) ->
  In m (configResolved opts deps hints) ->
  test m (normalizeId id) = true ->
  exists g,
    resolve opts deps hints id = Some (name g)
    /\ firstAccepting (normalizeId id) (configResolved opts deps hints) g
    /\ priority m <= priority g
    /\ forall m', In m' (configResolved opts deps hints) ->
                  test m' (normalizeId id) = true ->
                  priority m' <= priority g.
Proof.
  intros Hseg Hin Hm.
  assert (Hsorted : priorityDescending (configResolved opts deps hints)).
  { unfold configResolved. rewrite buildGroupMatchers_pushed.
    apply pushedMatchers_descending. }
  unfold resolve. rewrite manualChunks_inside by exact Hseg.
  destruct (find _ (configResolved opts deps hints)) as [g|] eqn:E.
  - exists g. apply find_first in E. split; [reflexivity|].
    split; [exact E|].
    destruct E as (before & after & El & Hb & Hg).
    assert (Hmax : forall m', In m' (configResolved opts deps hints) ->
                              test m' (normalizeId id) = true ->
                              priority m' <= priority g).
    { intros m' Hin' Hm'. rewrite El in Hin', Hsorted.
      apply in_app_or in Hin' as [Hin'|[<-|Hin']].
      - rewrite Forall_forall in Hb. specialize (Hb m' Hin'). congruence.
      - lia.
      - apply descending_tail, StronglySorted_inv in Hsorted as [_ Hall].
        rewrite Forall_forall in Hall. now apply Hall. }
    split; [now apply Hmax | exact Hmax].
  - apply find_none_iff in E. rewrite Forall_forall in E.
    specialize (E m Hin). congruence.
Qed.

Lemma resolve_highest_priority_witness :
  exists g,
    resolve (oneGroup None (Some aggressive) None "framework" ["vue"])
            ["vue"] ["vue"] "/p/node_modules/vue/index.js" = Some (name g)
    /\ name g = "framework" /\ 50 <= priority g.
Proof.
  assert (Hseg : hasNodeModulesSegment
                   (normalizeId "/p/node_modules/vue/index.js")).
  { apply nodeModulesSegment_iff. vm_compute. reflexivity. }
  destruct (@resolve_highest_priority
              (oneGroup None (Some aggressive) None "framework" ["vue"])
              ["vue"] ["vue"] "/p/node_modules/vue/index.js"
              {| name := "vue";
                 test := makeNodeModulesPattern (PkgString "vue");
                 priority := 50 |} Hseg)
    as (g & Hres & _ & Hle & _).
  - rewrite configResolved_pushed. right; right; left. reflexivity.
  - vm_compute. reflexivity.
  - exists g. split; [exact Hres|]. split; [|exact Hle].
    assert (Hc : resolve (oneGroup None (Some aggressive) None "framework" ["vue"])
                   ["vue"] ["vue"] "/p/node_modules/vue/index.js"
                 = Some "framework") by (vm_compute; reflexivity).
    rewrite Hc in Hres. now injection Hres as <-.
Defined.

(** ** More on the matcher builder *)

Lemma has_In (l : list string) (x : string) : has l x = true <-> In x l.
Proof.
  unfold has. rewrite existsb_exists. split.
  - intros (y & Hy & E). apply String.eqb_eq in E. now subst.
  - intros H. exists x. split; [exact H | apply String.eqb_refl].
Qed.

Lemma existsb_Permutation (A : Type) (f : A -> bool) (l l' : list A) :
  Permutation l l' -> existsb f l = existsb f l'.
Proof.
  induction 1 as [|x l l' _ IH|x y l|l l' l'' _ IH1 _ IH2]; simpl.
  - reflexivity.
  - now rewrite IH.
  - destruct (f x), (f y); reflexivity.
  - now rewrite IH1.
Qed.

Lemma someTester_map (A : Type) (f : A -> string -> bool) (l : list A)
      (id : string) :
  someTester (map f l) id = existsb (fun p => f p id) l.
Proof.
  unfold someTester. induction l as [|x l IH]; simpl; [reflexivity|].
  now rewrite IH.
Qed.

(** X10.  The matchers are pushed tier by tier, so the final sort moves
    nothing: the built list is the custom groups (priority 100), then the
    hint groups (90), then the strategy groups (between 50 and 80). *)
Theorem final_sort_is_identity
        (options : OPSOptions) (deps hints : list string) :
  let st := match strategy options with Some s => s | None => balanced end in
  buildGroupMatchers options deps hints
  = (customMatchers (groups options)
     ++ detectedMatchers hints ++ strategyMatchers st deps)%list
  /\ Forall (fun m => priority m = 100) (customMatchers (groups options))
  /\ Forall (fun m => priority m = 90) (detectedMatchers hints)
  /\ Forall (fun m => 50 <= priority m <= 80) (strategyMatchers st deps).
Proof.
  cbv zeta. split; [apply buildGroupMatchers_pushed|].
  split; [apply customMatchers_priority|].
  split; [apply detectedMatchers_priority|].
  destruct (match strategy options with Some s => s | None => balanced end);
    cbn [strategyMatchers].
  - apply Forall_flat_map, Forall_forall. intros d _.
    destruct (negb _); repeat constructor; simpl; lia.
  - apply Forall_app; split.
    + eapply Forall_impl; [|apply tableMatchers_priority]. simpl; intros; lia.
    + eapply Forall_impl; [|apply tableMatchers_priority]. simpl; intros; lia.
  - apply Forall_flat_map, Forall_forall. intros [n ps] _.
    destruct (arrayIncludes _ _); [|constructor].
    destruct (hasAny _ _ _); repeat constructor; simpl; lia.
Qed.

(** X11.  A custom group with at least one pattern gives one matcher at
    priority 100 that accepts a path exactly when one of the patterns does:
    the longest-first ordering of the patterns changes nothing in what the
    group accepts. *)
Theorem custom_group_accepts_any_pattern
        (groupName : string) (p : PackagePattern) (ps : list PackagePattern) :
  exists g,
    customMatchers (Some [(groupName, p :: ps)]) = [g]
    /\ name g = groupName /\ priority g = 100
    /\ forall id,
         test g id = existsb (fun q => makeNodeModulesPattern q id) (p :: ps).
Proof.
  eexists. split; [reflexivity|]. repeat split. intros id.
  cbn [test]. rewrite someTester_map.
  apply existsb_Permutation, sort_perm.
Qed.

(** X12.  With an empty dependency set (the manifest could not be read, or
    declares nothing) no strategy contributes a matcher: the list holds the
    custom and hint groups only, and without them every module of
    [node_modules] is classified [vendor]. *)
Theorem no_dependencies_no_strategy_groups
        (options : OPSOptions) (hints : list string) :
  buildGroupMatchers options [] hints
  = (customMatchers (groups options) ++ detectedMatchers hints)%list
  /\ forall ovr st ms id,
       manualChunks
         (buildGroupMatchers
            {| override := ovr; strategy := st; minSize := ms;
               groups := None |} [] []) id
       = if RegExp.test nodeModulesSegment (normalizeId id)
         then Some "vendor" else None.
Proof.
  assert (H : forall s, strategyMatchers s [] = []) by (now intros []).
  split.
  - rewrite buildGroupMatchers_pushed. unfold pushedMatchers.
    now rewrite H, app_nil_r.
  - intros ovr st ms id. rewrite buildGroupMatchers_pushed.
    unfold pushedMatchers. cbn [groups customMatchers app].
    rewrite H. unfold manualChunks.
    now destruct (RegExp.test nodeModulesSegment (normalizeId id)).
Qed.

(** X13.  Under [aggressive], without custom groups and hints, a module in
    the directory of a dependency that is not a [@types/] package is always
    claimed by a matcher: the answer is the name of the first matcher of the
    list that accepts the path, a priority 50 matcher named after a
    dependency (not [@types/]) whose pattern accepts the path.  The
    fallback is not used; the answer reads [vendor] only when a dependency
    is itself named [vendor]. *)
Theorem aggressive_classifies_dependencies
        (ovr : option bool) (ms : option PrimFloat.float)
        (deps : list string) (dep id pre post : string) :
  In dep deps ->
  JsString.startsWith dep "@types/" = false ->
  normalizeId id = (pre ++ "/node_modules/" ++ dep ++ post)%string ->
  atBoundary post ->
  let opts := {| override := ovr; strategy := Some aggressive;
                 minSize := ms; groups := None |} in
  exists d g,
    resolve opts deps [] id = Some d
    /\ firstAccepting (normalizeId id) (configResolved opts deps []) g
    /\ name g = d /\ priority g = 50
    /\ In d deps
    /\ JsString.startsWith d "@types/" = false
    /\ makeNodeModulesPattern (PkgString d) (normalizeId id) = true
    /\ (d = "vendor" -> In "vendor" deps).
Proof.
  intros Hin Hty Hid Hpost opts.
  assert (Hseg : hasNodeModulesSegment (normalizeId id)).
  { rewrite Hid. now exists pre, (dep ++ post)%string. }
  assert (Hacc : makeNodeModulesPattern (PkgString dep) (normalizeId id) = true).
  { rewrite Hid. apply makeNodeModulesPattern_occurrence.
    exists pre, "/node_modules/", "", "", dep, post.
    repeat split; auto using sameText_refl. now left. }
  assert (Hlist : configResolved opts deps [] = strategyMatchers aggressive deps).
  { rewrite configResolved_pushed. reflexivity. }
  unfold resolve. rewrite Hlist, manualChunks_inside by exact Hseg.
  destruct (find _ (strategyMatchers aggressive deps)) as [g|] eqn:E.
  - exists (name g), g. apply find_first in E.
    split; [reflexivity|]. split; [exact E|]. split; [reflexivity|].
    destruct E as (before & after & El & _ & Ht).
    assert (Hg : In g (strategyMatchers aggressive deps)).
    { rewrite El. apply in_or_app. right. now left. }
    apply in_flat_map in Hg as (d & Hd & Hg).
    destruct (JsString.startsWith d "@types/") eqn:Ed; [contradiction|].
    destruct Hg as [<-|[]]. cbn [name test priority] in *.
    repeat split; auto. now intros ->.
  - exfalso. apply find_none_iff in E. rewrite Forall_forall in E.
    assert (Hm : In {| name := dep;
                       test := makeNodeModulesPattern (PkgString dep);
                       priority := 50 |}
                    (strategyMatchers aggressive deps)).
    { apply in_flat_map. exists dep. split; [exact Hin|].
      rewrite Hty. now left. }
    specialize (E _ Hm). cbn [test] in E. congruence.
Qed.

Lemma aggressive_classifies_dependencies_witness :
  exists d,
    resolve (strategyOnly aggressive) ["axios"; "@types/node"; "lodash-es"] []
            "C:\app\node_modules\lodash-es\debounce.js" = Some d
    /\ d = "lodash-es".
Proof.
  destruct (@aggressive_classifies_dependencies None None
              ["axios"; "@types/node"; "lodash-es"] "lodash-es"
              "C:\app\node_modules\lodash-es\debounce.js"
              "C:/app" "/debounce.js") as (d & g & Hres & _).
  - right; right; left. reflexivity.
  - reflexivity.
  - vm_compute. reflexivity.
  - right. exists "debounce.js". now left.
  - exists d. split; [exact Hres|].
    assert (Hc : resolve (strategyOnly aggressive)
                   ["axios"; "@types/node"; "lodash-es"] []
                   "C:\app\node_modules\lodash-es\debounce.js"
                 = Some "lodash-es") by (vm_compute; reflexivity).
    change (strategyOnly aggressive)
      with {| override := None; strategy := Some aggressive;
              minSize := None; groups := None |} in Hc.
    rewrite Hc in Hres. now injection Hres as <-.
Defined.

(** A dependency may itself be named [vendor]. *)
Example dependency_named_vendor :
  resolve (strategyOnly aggressive) ["vendor"] []
    "/p/node_modules/vendor/index.js" = Some "vendor"
  /\ map (fun g => (name g, priority g))
         (configResolved (strategyOnly aggressive) ["vendor"] [])
     = [("vendor", 50)].
Proof. split; vm_compute; reflexivity. Qed.

(** X14.  A framework hint wins over every strategy group.  When the
    plugin list names [vite:vue] or [vite:vue-jsx] and there is no custom
    group, every module of [node_modules] that the pattern [vue] accepts is
    classified [vue], under every strategy and dependency set; the hints are
    never anything but [vue] and [vueuse]. *)
Theorem vue_plugin_hint_classifies_vue
        (ovr : option bool) (st : option SplitStrategy)
        (ms : option PrimFloat.float)
        (deps pluginNames : list string) (id : string) :
  In "vite:vue" pluginNames \/ In "vite:vue-jsx" pluginNames ->
  hasNodeModulesSegment (normalizeId id) ->
  makeNodeModulesPattern (PkgString "vue") (normalizeId id) = true ->
  manualChunks
    (configResolvedHook
       {| override := ovr; strategy := st; minSize := ms; groups := None |}
       deps pluginNames) id = Some "vue"
  /\ incl (detectHints pluginNames) ["vue"; "vueuse"].
Proof.
  intros Hp Hseg Hvue. split.
  - unfold configResolvedHook. rewrite configResolved_pushed.
    cbn [groups customMatchers app].
    assert (Hh : has (detectHints pluginNames) "vue" = true).
    { apply has_In. unfold detectHints.
      assert (E : has pluginNames "vite:vue" || has pluginNames "vite:vue-jsx"
                  = true).
      { apply orb_true_iff. destruct Hp as [H|H]; [left|right];
          now apply has_In. }
      rewrite E. now left. }
    unfold detectedMatchers, detectedGroups. rewrite Hh. cbn [app map].
    apply manualChunks_first; [exact Hseg|].
    cbn [test presetMatcher someTester map existsb]. now rewrite Hvue.
  - unfold detectHints.
    destruct (has pluginNames "vite:vue" || has pluginNames "vite:vue-jsx"),
      (has pluginNames "unplugin-vue-components");
      intros x Hx; simpl in *; intuition.
Qed.

Lemma vue_plugin_hint_classifies_vue_witness :
  manualChunks
    (configResolvedHook (strategyOnly aggressive) ["vue"; "pinia"]
       ["vite:react-refresh"; "vite:vue-jsx"])
    "/p/node_modules/vue/index.js" = Some "vue"
  /\ map (fun g => (name g, priority g))
         (configResolvedHook (strategyOnly aggressive) ["vue"; "pinia"]
            ["vite:react-refresh"; "vite:vue-jsx"])
     = [("vue", 90); ("vue", 50); ("pinia", 50)].
Proof.
  split; [|vm_compute; reflexivity].
  apply (@vue_plugin_hint_classifies_vue None (Some aggressive) None
           ["vue"; "pinia"] ["vite:react-refresh"; "vite:vue-jsx"]
           "/p/node_modules/vue/index.js").
  - right. right; left. reflexivity.
  - apply nodeModulesSegment_iff. vm_compute. reflexivity.
  - vm_compute. reflexivity.
Defined.

(** X15.  [conservative] splits no more than [balanced]: for the same
    dependency set every strategy group of [conservative] is, by name, a
    strategy group of [balanced], and its name is one of the seven very
    large libraries. *)
Theorem conservative_within_balanced (deps : list string) (n : string) :
  In n (map name (strategyMatchers conservative deps)) ->
  In n (map name (strategyMatchers balanced deps))
  /\ In n veryLargeLibs.
Proof.
  rewrite conservative_names. intros H.
  apply in_map_iff in H as ([g ps] & <- & H).
  apply filter_In in H as [Hin H]. apply andb_true_iff in H as [Hv Ha].
  cbn [fst snd] in *. split.
  - cbn [strategyMatchers]. rewrite map_app, tableMatchers_names.
    apply in_or_app; left. apply in_map_iff. exists (g, ps).
    split; [reflexivity|]. apply filter_In. now split.
  - unfold arrayIncludes in Hv. now apply has_In in Hv.
Qed.

Lemma conservative_within_balanced_witness :
  In "echarts" (map name (strategyMatchers balanced ["echarts"; "axios"]))
  /\ map name (strategyMatchers conservative ["echarts"; "axios"]) = ["echarts"]
  /\ map name (strategyMatchers balanced ["echarts"; "axios"])
     = ["axios"; "echarts"].
Proof.
  split; [|split; vm_compute; reflexivity].
  apply (@conservative_within_balanced ["echarts"; "axios"] "echarts").
  vm_compute. now left.
Defined.

(** ** Asset names *)

Lemma lowerChar_idempotent (c : ascii) : lowerChar (lowerChar c) = lowerChar c.
Proof. destruct c as [[] [] [] [] [] [] [] []]; reflexivity. Qed.

Lemma lowerChar_dot (c : ascii) :
  Ascii.eqb (lowerChar c) "." = Ascii.eqb c ".".
Proof. destruct c as [[] [] [] [] [] [] [] []]; reflexivity. Qed.

Lemma toLowerCase_idempotent (s : string) :
  toLowerCase (toLowerCase s) = toLowerCase s.
Proof.
  induction s as [|c s IH]; [reflexivity|]. cbn [toLowerCase].
  now rewrite lowerChar_idempotent, IH.
Qed.

Lemma noDot_toLowerCase (s : string) : noDot (toLowerCase s) = noDot s.
Proof.
  induction s as [|c s IH]; [reflexivity|]. cbn [toLowerCase noDot].
  now rewrite lowerChar_dot, IH.
Qed.

Lemma split_noDot (e : string) : noDot e = true -> split "." e = [e].
Proof.
  induction e as [|a e IH]; [reflexivity|]. cbn [noDot split]. intros H.
  apply andb_true_iff in H as [Ha He]. apply negb_true_iff in Ha.
  rewrite Ha, (IH He). reflexivity.
Qed.

(** The last piece of a name is what follows its last dot. *)
Lemma pop_split_extension (stem e : string) :
  noDot e = true -> pop (split "." (stem ++ "." ++ e)) = Some e.
Proof.
  intros He. change ("." ++ e)%string with (String "." e).
  assert (H : exists piece pieces,
             split "." (stem ++ String "." e) = piece :: pieces
             /\ pop pieces = Some e).
  { induction stem as [|a stem (piece & pieces & E & Hp)]; cbn [append split].
    - rewrite Ascii.eqb_refl, (split_noDot _ He). now exists "", [e].
    - destruct (Ascii.eqb a ".").
      + exists "", (piece :: pieces). split; [now rewrite E|].
        destruct pieces; [discriminate Hp | exact Hp].
      + rewrite E. now exists (String a piece), pieces. }
  destruct H as (piece & pieces & -> & Hp).
  destruct pieces; [discriminate Hp | exact Hp].
Qed.

(** X16.  The directory of an asset depends only on what follows the last
    dot of its name, without regard to case; a name without a dot counts as
    its own extension. *)
Theorem asset_extension_decides (stem e : string) :
  noDot e = true ->
  assetFileNamesFn (Some (stem ++ "." ++ e))
  = assetFileNamesFn (Some (toLowerCase e))
  /\ assetFileNamesFn (Some e) = assetFileNamesFn (Some (toLowerCase e)).
Proof.
  intros He.
  assert (Hl : pop (split "." (toLowerCase e)) = Some (toLowerCase e)).
  { rewrite split_noDot; [reflexivity|]. now rewrite noDot_toLowerCase. }
  unfold assetFileNamesFn. cbv zeta.
  rewrite (pop_split_extension stem e He), Hl, (split_noDot e He).
  cbn [pop option_map]. rewrite toLowerCase_idempotent. now split.
Qed.

Lemma asset_extension_decides_witness :
  assetFileNamesFn (Some ("logo.min" ++ "." ++ "PNG"))
  = "img/[name]-[hash][extname]"
  /\ assetFileNamesFn (Some "WOFF2") = "fonts/[name]-[hash][extname]".
Proof.
  destruct (@asset_extension_decides "logo.min" "PNG" eq_refl) as [H1 _].
  destruct (@asset_extension_decides "" "WOFF2" eq_refl) as [_ H2].
  split; [rewrite H1 | rewrite H2]; vm_compute; reflexivity.
Defined.

(** X17.  Every asset goes to one of the four directories [css/], [img/],
    [fonts/], [assets/]; an asset without a name, or whose name ends with a
    dot, goes to [assets/]. *)
Theorem asset_directories (assetName : option string) (stem : string) :
  In (assetFileNamesFn assetName)
     ["css/[name]-[hash][extname]"; "img/[name]-[hash][extname]";
      "fonts/[name]-[hash][extname]"; "assets/[name]-[hash][extname]"]
  /\ assetFileNamesFn None = "assets/[name]-[hash][extname]"
  /\ assetFileNamesFn (Some (stem ++ ".")) = "assets/[name]-[hash][extname]".
Proof.
  split; [|split; [reflexivity|]].
  - unfold assetFileNamesFn. cbv zeta.
    destruct (match option_map toLowerCase _ with
              | Some e => String.eqb e "css" | None => false end);
      [now left|].
    destruct (arrayIncludes ["png"; "jpg"; "jpeg"; "gif"; "svg"; "webp"; "avif"] _);
      [right; now left|].
    destruct (arrayIncludes ["woff"; "woff2"; "eot"; "ttf"; "otf"] _);
      [right; right; now left | right; right; right; now left].
  - unfold assetFileNamesFn. cbv zeta.
    change (stem ++ ".")%string with (stem ++ "." ++ "")%string.
    rewrite (pop_split_extension stem "" eq_refl). reflexivity.
Qed.

(** ** The [config] hook *)

Section OutputFacts.
Variable V : Type.
Local Open Scope list_scope.
Implicit Types (obj base : OutputObject V) (v : OutputValue V).

Lemma hasKey_app (key : string) obj (more : OutputObject V) :
  hasKey key (obj ++ more) = hasKey key obj || hasKey key more.
Proof. unfold hasKey. apply existsb_app. Qed.

Lemma getKey_app (key : string) obj (more : OutputObject V) :
  getKey key (obj ++ more)
  = match getKey key obj with
    | Some v => Some v
    | None => getKey key more
    end.
Proof.
  induction obj as [|[k w] obj IH]; simpl; [reflexivity|].
  now destruct (String.eqb k key).
Qed.

Lemma getKey_absent (key : string) obj :
  hasKey key obj = false -> getKey key obj = None.
Proof.
  induction obj as [|[k w] obj IH]; simpl; [reflexivity|].
  destruct (String.eqb k key); [discriminate | exact IH].
Qed.

Lemma setKey_absent (key : string) v obj :
  hasKey key obj = false -> setKey key v obj = (obj ++ [(key, v)])%list.
Proof.
  induction obj as [|[k w] obj IH]; simpl; [reflexivity|].
  destruct (String.eqb k key); [discriminate|]. intros H. now rewrite IH.
Qed.

Lemma fillIn_spec (key : string) v obj :
  fillIn key v obj
  = if hasKey key obj then obj else (obj ++ [(key, v)])%list.
Proof.
  unfold fillIn. destruct (hasKey key obj) eqn:E; [reflexivity|].
  now apply setKey_absent.
Qed.

(** The merge: the object of the user, then the injected entries whose key
    the user left out, in the order of [injected]. *)
Lemma config_merge base :
  config false (OutputRecord base)
  = (base ++ filter (fun e => negb (hasKey (fst e) base)) (injected V))%list.
Proof.
  unfold config. cbn [negb andb]. rewrite !fillIn_spec.
  cbn [injected filter fst].
  destruct (hasKey "entryFileNames" base) eqn:E1;
    destruct (hasKey "chunkFileNames" base) eqn:E2;
    destruct (hasKey "assetFileNames" base) eqn:E3;
    destruct (hasKey "manualChunks" base) eqn:E4;
    cbn [negb];
    repeat (rewrite ?hasKey_app, ?E1, ?E2, ?E3, ?E4;
            simpl (hasKey _ (_ :: _)); cbn [orb]);
    rewrite <- ?app_assoc; try rewrite app_nil_r; reflexivity.
Qed.

Lemma config_has_injected_keys (override : bool)
      (existing : ExistingOutput V) (key : string) :
  In key (map fst (injected V)) -> hasKey key (config override existing) = true.
Proof.
  intros Hk.
  assert (Hinj : hasKey key (injected V) = true).
  { cbn [injected map fst] in Hk.
    destruct Hk as [<-|[<-|[<-|[<-|[]]]]]; reflexivity. }
  destruct override, existing as [|l|base]; try exact Hinj.
  rewrite config_merge, hasKey_app.
  destruct (hasKey key base) eqn:E; [reflexivity|]. cbn [orb].
  cbn [injected map fst] in Hk.
  destruct Hk as [<-|[<-|[<-|[<-|[]]]]]; cbn [injected filter fst];
    rewrite E;
    destruct (hasKey "entryFileNames" base), (hasKey "chunkFileNames" base),
      (hasKey "assetFileNames" base), (hasKey "manualChunks" base);
    try discriminate E; reflexivity.
Qed.
End OutputFacts.

(** X18.  With [override] on, or when the user configuration has no
    [output] or has it as an array, the hook returns exactly the four
    injected entries: an array of outputs is replaced, not merged. *)
Theorem config_replaces_output (V : Type) (override : bool)
        (existing : ExistingOutput V) (outputs : list (OutputObject V)) :
  config true existing = injected V
  /\ config override (NoOutput V) = injected V
  /\ config override (OutputArray outputs) = injected V.
Proof.
  split; [|split].
  - destruct existing; reflexivity.
  - destruct override; reflexivity.
  - destruct override; reflexivity.
Qed.

(** X19.  With [override] off and an [output] object in the user
    configuration, the hook returns that object unchanged, followed by the
    injected entries for the keys it lacks, in the order [entryFileNames],
    [chunkFileNames], [assetFileNames], [manualChunks]. *)
Theorem config_merge_keeps_user_output (V : Type) (base : OutputObject V) :
  config false (OutputRecord base)
  = (base ++ filter (fun e => negb (hasKey (fst e) base)) (injected V))%list.
Proof. apply config_merge. Qed.

(** X20.  In the merged output a key set by the user keeps the user's
    value, and any other key has the injected value, if there is one. *)
Theorem config_merge_lookup (V : Type) (base : OutputObject V) (key : string) :
  getKey key (config false (OutputRecord base))
  = match getKey key base with
    | Some v => Some v
    | None => getKey key (injected V)
    end.
Proof.
  rewrite config_merge, getKey_app.
  destruct (getKey key base) as [v|] eqn:E; [reflexivity|].
  assert (Hk : hasKey key base = false).
  { clear -E. induction base as [|[k w] base IH]; simpl in *; [reflexivity|].
    destruct (String.eqb k key); [discriminate | now apply IH]. }
  cbn [injected filter fst getKey].
  destruct (String.eqb "entryFileNames" key) eqn:K1.
  { apply String.eqb_eq in K1. subst key. rewrite Hk. cbn [negb getKey].
    now rewrite String.eqb_refl. }
  destruct (String.eqb "chunkFileNames" key) eqn:K2.
  { apply String.eqb_eq in K2. subst key. rewrite Hk.
    destruct (hasKey "entryFileNames" base); cbn [negb getKey];
      rewrite ?K1; now rewrite String.eqb_refl. }
  destruct (String.eqb "assetFileNames" key) eqn:K3.
  { apply String.eqb_eq in K3. subst key. rewrite Hk.
    destruct (hasKey "entryFileNames" base), (hasKey "chunkFileNames" base);
      cbn [negb getKey]; rewrite ?K1, ?K2; now rewrite String.eqb_refl. }
  destruct (String.eqb "manualChunks" key) eqn:K4.
  { apply String.eqb_eq in K4. subst key. rewrite Hk.
    destruct (hasKey "entryFileNames" base), (hasKey "chunkFileNames" base),
      (hasKey "assetFileNames" base);
      cbn [negb getKey]; rewrite ?K1, ?K2, ?K3; now rewrite String.eqb_refl. }
  destruct (hasKey "entryFileNames" base), (hasKey "chunkFileNames" base),
    (hasKey "assetFileNames" base), (hasKey "manualChunks" base);
    cbn [negb getKey]; rewrite ?K1, ?K2, ?K3, ?K4; reflexivity.
Qed.

(** X21.  The output of the hook always has the four keys, so running the
    hook again on its own result, with [override] off, changes nothing. *)
Theorem config_idempotent (V : Type) (override : bool)
        (existing : ExistingOutput V) :
  forallb (fun key => hasKey key (config override existing))
          ["entryFileNames"; "chunkFileNames"; "assetFileNames"; "manualChunks"]
  = true
  /\ config false (OutputRecord (config override existing))
     = config override existing.
Proof.
  assert (Hk : forall key, In key (map fst (injected V)) ->
                           hasKey key (config override existing) = true)
    by (intros; now apply config_has_injected_keys).
  assert (H1 := Hk "entryFileNames" (or_introl eq_refl)).
  assert (H2 := Hk "chunkFileNames" (or_intror (or_introl eq_refl))).
  assert (H3 := Hk "assetFileNames"
                   (or_intror (or_intror (or_introl eq_refl)))).
  assert (H4 := Hk "manualChunks"
                   (or_intror (or_intror (or_intror (or_introl eq_refl))))).
  split.
  - cbn [forallb]. now rewrite H1, H2, H3, H4.
  - rewrite config_merge. cbn [injected filter fst].
    rewrite H1, H2, H3, H4. cbn [negb]. apply app_nil_r.
Qed.

(** ** The boundary of a literal, in the resolver *)




(** ** The order of the custom groups *)

Lemma sort_ext (A : Type) (cmp cmp' : A -> A -> Z) (l : list A) :
  (forall x y, (cmp x y <=? 0) = (cmp' x y <=? 0)) ->
  sort cmp l = sort cmp' l.
Proof.
  intros H. induction l as [|x l IH]; [reflexivity|].
  cbn [sort fold_right]. fold (sort cmp l) (sort cmp' l). rewrite IH.
  generalize (sort cmp' l). intros l0.
  induction l0 as [|y l0 IH0]; [reflexivity|].
  cbn [insert]. rewrite H, IH0. reflexivity.
Qed.

Lemma filter_all (A : Type) (f : A -> bool) (l : list A) :
  Forall (fun x => f x = true) l -> filter f l = l.
Proof.
  induction 1 as [|x l Hx _ IH]; [reflexivity|].
  cbn [filter]. now rewrite Hx, IH.
Qed.

Lemma filter_none (A : Type) (f : A -> bool) (l : list A) :
  Forall (fun x => f x = false) l -> filter f l = [].
Proof.
  induction 1 as [|x l Hx _ IH]; [reflexivity|].
  cbn [filter]. now rewrite Hx.
Qed.

Lemma Forall_filter (A : Type) (f : A -> bool) (l : list A) :
  Forall (fun x => f x = true) (filter f l).
Proof. apply Forall_forall. intros x H. now apply filter_In in H. Qed.

Section ObjectEntriesFacts.
Variable A : Type.
Implicit Types own : list (string * A).
Local Open Scope list_scope.

Abbreviation notIndex := (fun e : string * A => negb (isArrayIndex e)).

Lemma index_part_is_index own :
  Forall (fun e : string * A => isArrayIndex e = true)
         (sort (@ascendingIndex A) (filter (@isArrayIndex A) own)).
Proof.
  eapply Permutation_Forall; [symmetry; apply sort_perm|].
  apply Forall_filter.
Qed.

Lemma objectEntries_index_part own :
  filter (@isArrayIndex A) (objectEntries own)
  = sort (@ascendingIndex A) (filter (@isArrayIndex A) own).
Proof.
  unfold objectEntries. rewrite filter_app.
  rewrite (filter_all _ (index_part_is_index own)).
  rewrite (@filter_none _ (@isArrayIndex A) (filter notIndex own));
    [apply app_nil_r|].
  eapply Forall_impl; [|apply (Forall_filter notIndex)].
  intros e H. now apply negb_true_iff in H.
Qed.

Lemma objectEntries_other_part own :
  filter notIndex (objectEntries own) = filter notIndex own.
Proof.
  unfold objectEntries. rewrite filter_app.
  rewrite (@filter_none _ notIndex
             (sort (@ascendingIndex A) (filter (@isArrayIndex A) own))).
  - cbn [app]. apply filter_all, Forall_filter.
  - eapply Forall_impl; [|apply index_part_is_index].
    intros e H. cbn beta. now rewrite H.
Qed.

Lemma objectEntries_perm own : Permutation (objectEntries own) own.
Proof.
  unfold objectEntries. rewrite sort_perm.
  induction own as [|e own IH]; [reflexivity|]. cbn [filter].
  destruct (isArrayIndex e); cbn [negb app].
  - now constructor.
  - rewrite <- Permutation_middle. now constructor.
Qed.

Lemma objectEntries_ascending own :
  StronglySorted (fun a b : string * A => indexValue a <= indexValue b)
                 (filter (@isArrayIndex A) (objectEntries own)).
Proof.
  rewrite objectEntries_index_part.
  rewrite (@sort_ext _ (@ascendingIndex A)
             (fun a b => (- indexValue b) - (- indexValue a))).
  - pose proof (sort_descending (fun e : string * A => - indexValue e)
                  (filter (@isArrayIndex A) own)) as H.
    cbv beta in H. revert H. generalize (sort (fun a b : string * A =>
                                  - indexValue b - - indexValue a)
                               (filter (@isArrayIndex A) own)).
    intros l0 H. induction H as [|x l1 _ IH Hall]; constructor; [exact IH|].
    eapply Forall_impl; [|exact Hall]. cbn beta. intros; lia.
  - intros x y. unfold ascendingIndex.
    destruct (Z.leb_spec (indexValue x - indexValue y) 0),
      (Z.leb_spec (- indexValue y - - indexValue x) 0); try reflexivity; lia.
Qed.

Lemma objectEntries_without_index own :
  forallb notIndex own = true -> objectEntries own = own.
Proof.
  intros H. unfold objectEntries.
  assert (Hall : Forall (fun e => notIndex e = true) own).
  { apply Forall_forall. intros e He.
    exact (proj1 (forallb_forall _ _) H e He). }
  rewrite (filter_all _ Hall), (@filter_none _ (@isArrayIndex A) own).
  - reflexivity.
  - eapply Forall_impl; [|exact Hall].
    intros e He. now apply negb_true_iff in He.
Qed.
End ObjectEntriesFacts.

(** C9 (amended).  For every configuration, dependency set and hint set the
    list returned by the matcher builder is in non-increasing priority
    order, and matchers of equal priority keep the order in which they were
    pushed.  The pushed order is: the custom groups (those with at least one
    pattern) in the order in which [Object.entries] enumerates the [groups]
    object, then the hint groups ([vue] before [vueuse]), then the groups of
    the strategy in the order of the dependency set or of the preset tables.
    [Object.entries] puts the integer-like group names first, in ascending
    numeric order, and then the other names in declared order; it is the
    declared order when no group name is integer-like. *)
Theorem matcher_list_sorted_stable_in_entries_order
        (ovr : option bool) (st : option SplitStrategy)
        (ms : option PrimFloat.float) (declared : option Groups)
        (deps hints : list string) :
  let options := declaredOptions ovr st ms declared in
  let strat := match st with Some s => s | None => balanced end in
  let entries := match declared with
                 | Some own => objectEntries own
                 | None => []
                 end in
  let pushed := (customMatchers (groups options)
                 ++ detectedMatchers hints
                 ++ strategyMatchers strat deps)%list in
  let built := buildGroupMatchers options deps hints in
  priorityDescending built
  /\ Permutation built pushed
  /\ (forall p, tier p built = tier p pushed)
  /\ map name (customMatchers (groups options))
     = map fst (filter (fun e => negb (Nat.eqb (List.length (snd e)) 0))
                       entries)
  /\ (forall own : Groups,
        Permutation (objectEntries own) own
        /\ objectEntries own
           = (filter (@isArrayIndex _) (objectEntries own)
              ++ filter (fun e => negb (isArrayIndex e)) own)%list
        /\ StronglySorted (fun a b => indexValue a <= indexValue b)
                          (filter (@isArrayIndex _) (objectEntries own))
        /\ (forallb (fun e => negb (isArrayIndex e)) own = true ->
            objectEntries own = own))
  /\ map name (detectedMatchers hints)
     = ((if has hints "vue" then ["vue"] else [])
        ++ (if has hints "vueuse" then ["vueuse"] else []))%list
  /\ map name (strategyMatchers aggressive deps)
     = filter (fun dep => negb (JsString.startsWith dep "@types/")) deps
  /\ map name (strategyMatchers balanced deps)
     = (map fst (filter (fun e => hasAny stripSlash deps (snd e))
                        COMMON_LARGE_LIBS)
        ++ map fst (filter (fun e => hasAny stripSlashStar deps (snd e))
                           MEDIUM_LIB_GROUPS))%list
  /\ map name (strategyMatchers conservative deps)
     = map fst (filter (fun e => arrayIncludes veryLargeLibs (fst e)
                                 && hasAny stripSlash deps (snd e))
                       COMMON_LARGE_LIBS).
Proof.
  cbv zeta. split; [apply (sort_descending priority)|].
  split; [apply sort_perm|].
  split; [intros p; apply (filter_sort priority)|].
  split.
  { destruct declared as [own|]; [apply customMatchers_names | reflexivity]. }
  split.
  { intros own. split; [apply objectEntries_perm|].
    split; [now rewrite objectEntries_index_part|].
    split; [apply objectEntries_ascending | apply objectEntries_without_index]. }
  split.
  { rewrite detectedMatchers_names. unfold detectedGroups.
    now destruct (has hints "vue"), (has hints "vueuse"). }
  split; [apply aggressive_names|].
  split; [|apply conservative_names].
  cbn [strategyMatchers]. rewrite map_app. now rewrite !tableMatchers_names.
Qed.

(** C9 (the claim as first stated fails).  Groups written in the order [b],
    [10], [2] are pushed, and returned, in the order [2], [10], [b]: the
    custom groups are not in declared order. *)
Lemma integer_like_group_names_come_first :
  map name
      (buildGroupMatchers
         (declaredOptions None None None
            (Some [("b", [PkgString "lodash"]);
                   ("10", [PkgString "axios"]);
                   ("2", [PkgString "dayjs"])]))
         [] [])
  = ["2"; "10"; "b"]
  /\ resolve
       (declaredOptions None None None
          (Some [("b", [PkgString "dayjs"]); ("2", [PkgString "dayjs"])]))
       [] [] "/p/node_modules/dayjs/index.js" = Some "2".
Proof. split; vm_compute; reflexivity. Qed.

Example arrayIndex_examples :
  map arrayIndex ["0"; "7"; "10"; "4294967294"; "4294967295"; "01"; "-1";
                  "1.5"; ""; "b"; "3d"]
  = [Some 0%N; Some 7%N; Some 10%N; Some 4294967294%N; None; None; None;
     None; None; None; None].
Proof. vm_compute. reflexivity. Qed.
